(** * Account Details web app: normalisation, preference store, filter engine

    A shallow embedding of the data pipeline of [app.js] (and of the older
    [app_backup.js], in [Module Backup] and [Module BackupFilter]):
    [normalizeAccount], [loadData], the [localStorage]-backed preferences
    ([migrateLocalStorageData], [initializeTheme], [toggleTheme],
    [loadFavorites], [saveFavorites], [toggleFavorite]), [applyFilters] with
    the handlers of the filter bar and the purpose options, the display
    helpers ([maskAccountNumber], [maskIBAN], [getBankInitials], the
    selection of [renderFavoritesStrip]) and the first steps of [init].

    Conventions of the embedding.
    - A JavaScript string is a [string]: a sequence of 8-bit code units (the
      Latin-1 range of UTF-16).  [<] on strings is the code-unit
      lexicographic order, as in JavaScript.
    - A JavaScript number is kept as the exact decimal [m * 10^e] its literal
      denotes; rounding to binary64 is not modelled.
    - A JavaScript value is a [jsval] tree; arrays and objects carry no
      reference identity.  [JWide] stands for a string value with a code
      unit above 255, which only a [\u] escape of a JSON text can produce
      here; its content is not represented.
    - Code runs in [M]: state passing over a [world] with three outcomes, a
      normal return, a thrown exception, and [Beyond] for the few places
      where the code's behaviour depends on something the embedding does not
      represent (reference identity, number printing, the content of a
      [JWide]).
    - DOM construction is the rendering layer and is left out; only
      [showToast] and the [data-theme] attribute are kept. *)

From Stdlib Require Import ZArith Ascii String List Bool Lia.
From stdpp Require Import gmap strings list fin_maps.

Open Scope string_scope.
Local Set Warnings "-register-all".

(** ** Values *)

Inductive jsval : Type :=
| JUndefined
| JNull
| JBool (b : bool)
| JNum (m e : Z)
| JStr (s : string)
| JWide
| JArr (l : list jsval)
| JObj (fs : list (string * jsval)).

(** ToBoolean. *)
Definition truthy (v : jsval) : bool :=
  match v with
  | JUndefined | JNull => false
  | JBool b => b
  | JNum m _ => negb (m =? 0)%Z
  | JStr s => negb (String.eqb s "")
  | JWide | JArr _ | JObj _ => true
  end.

(** [a || b]: the left operand when it is truthy, else the right one. *)
Definition js_or (a b : jsval) : jsval := if truthy a then a else b.

Definition is_string (v : jsval) : bool :=
  match v with JStr _ | JWide => true | _ => false end.

Definition is_primitive (v : jsval) : bool :=
  match v with JArr _ | JObj _ => false | _ => true end.

(** [Array.isArray]. *)
Definition isArray (v : jsval) : bool :=
  match v with JArr _ => true | _ => false end.

(** Equality of two numbers [m1 * 10^e1] and [m2 * 10^e2]. *)
Definition num_eqb (m1 e1 m2 e2 : Z) : bool :=
  let e := Z.min e1 e2 in
  (m1 * 10 ^ (e1 - e) =? m2 * 10 ^ (e2 - e))%Z.

(** [a === b]: [None] when both sides are arrays or objects, which
    JavaScript compares by reference, or both are wide strings. *)
Definition strict_equals (a b : jsval) : option bool :=
  match a, b with
  | JUndefined, JUndefined => Some true
  | JNull, JNull => Some true
  | JBool x, JBool y => Some (Bool.eqb x y)
  | JNum m1 e1, JNum m2 e2 => Some (num_eqb m1 e1 m2 e2)
  | JStr s, JStr t => Some (String.eqb s t)
  | JWide, JWide => None
  | (JArr _ | JObj _), (JArr _ | JObj _) => None
  | _, _ => Some false
  end.

(** ** Strings *)

Definition code (c : ascii) : N := N_of_ascii c.

(** [String.prototype.toLowerCase] on one code unit below 256: [A-Z], and
    the Latin-1 capitals U+00C0..U+00DE except the multiplication sign. *)
Definition lower_char (c : ascii) : ascii :=
  let n := code c in
  if ((65 <=? n) && (n <=? 90))%N then ascii_of_N (n + 32)
  else if ((192 <=? n) && (n <=? 222) && negb (n =? 215))%N
       then ascii_of_N (n + 32)
  else c.

Fixpoint toLowerCase (s : string) : string :=
  match s with
  | EmptyString => EmptyString
  | String c s' => String (lower_char c) (toLowerCase s')
  end.

(** [hay.startsWith(needle)]. *)
Definition startsWith (needle hay : string) : bool := String.prefix needle hay.

(** [hay.includes(needle)]. *)
Fixpoint includes (needle hay : string) : bool :=
  startsWith needle hay ||
  match hay with
  | EmptyString => false
  | String _ hay' => includes needle hay'
  end.

(** [xs.includes(x)] for an array of strings. *)
Definition str_in (x : string) (xs : list string) : bool :=
  existsb (String.eqb x) xs.

(** ** Outcomes *)

Inductive exn : Type :=
| DOMException
| SyntaxError
| TypeError
| Error (msg : string).

Inductive outcome (A : Type) : Type :=
| Ret (a : A)
| Throw (e : exn)
| Beyond.
Arguments Ret {A} a.
Arguments Throw {A} e.
Arguments Beyond {A}.

(** Sequencing of pure outcomes. *)
Definition obind {A B} (o : outcome A) (k : A -> outcome B) : outcome B :=
  match o with
  | Ret a => k a
  | Throw e => Throw e
  | Beyond => Beyond
  end.

Notation "'let!' x ':=' c 'in' k" := (obind c (fun x => k))
  (at level 10, x name, c at level 100, k at level 200).

(** The outcomes of a list of evaluations, left to right. *)
Fixpoint sequence {A} (os : list (outcome A)) : outcome (list A) :=
  match os with
  | [] => Ret []
  | o :: os' =>
      let! a := o in
      let! rest := sequence os' in
      Ret (a :: rest)
  end.

(** ** [JSON.parse]

    A lexer and a pushdown parser, both one pass over their input. *)

Inductive token : Type :=
| TLBrace | TRBrace | TLBracket | TRBracket | TComma | TColon
| TString (s : string)
| TWide
| TNumber (m e : Z)
| TTrue | TFalse | TNull.

Definition is_digit (c : ascii) : bool :=
  let n := code c in ((48 <=? n) && (n <=? 57))%N.

Definition is_ws (c : ascii) : bool :=
  let n := code c in ((n =? 32) || (n =? 9) || (n =? 10) || (n =? 13))%N.

Definition is_letter (c : ascii) : bool :=
  let n := code c in ((97 <=? n) && (n <=? 122))%N.

Definition is_number_char (c : ascii) : bool :=
  is_digit c ||
  let n := code c in
  ((n =? 45) || (n =? 43) || (n =? 46) || (n =? 101) || (n =? 69))%N.

Definition hex_value (c : ascii) : option N :=
  let n := code c in
  if ((48 <=? n) && (n <=? 57))%N then Some (n - 48)%N
  else if ((97 <=? n) && (n <=? 102))%N then Some (n - 87)%N
  else if ((65 <=? n) && (n <=? 70))%N then Some (n - 55)%N
  else None.

Fixpoint span_digits (cs : list ascii) : list ascii * list ascii :=
  match cs with
  | c :: cs' =>
      if is_digit c
      then let (ds, rest) := span_digits cs' in (c :: ds, rest)
      else ([], cs)
  | [] => ([], [])
  end.

Definition digits_value (ds : list ascii) : Z :=
  fold_left (fun acc c => (10 * acc + Z.of_N (code c - 48))%Z) ds 0%Z.

(** The JSON number grammar: [-? int frac? exp?]. *)
Definition number_of_lexeme (cs : list ascii) : option (Z * Z) :=
  let (neg, cs1) :=
    match cs with
    | c :: r => if (code c =? 45)%N then (true, r) else (false, cs)
    | [] => (false, cs)
    end in
  let (ip, cs2) := span_digits cs1 in
  match ip with
  | [] => None
  | d :: ip' =>
      if (code d =? 48)%N && negb (length ip' =? 0)%nat then None else
      let frac :=
        match cs2 with
        | c :: r =>
            if (code c =? 46)%N
            then let (fp, r') := span_digits r in
                 match fp with [] => None | _ => Some (fp, r') end
            else Some ([], cs2)
        | [] => Some ([], [])
        end in
      match frac with
      | None => None
      | Some (fp, cs3) =>
          let expo :=
            match cs3 with
            | c :: r =>
                if ((code c =? 101) || (code c =? 69))%N then
                  let (sgn, r1) :=
                    match r with
                    | s :: r' =>
                        if (code s =? 45)%N then ((-1)%Z, r')
                        else if (code s =? 43)%N then (1%Z, r')
                        else (1%Z, r)
                    | [] => (1%Z, r)
                    end in
                  let (ep, r2) := span_digits r1 in
                  match ep, r2 with
                  | _ :: _, [] => Some (sgn * digits_value ep)%Z
                  | _, _ => None
                  end
                else None
            | [] => Some 0%Z
            end in
          match expo with
          | None => None
          | Some ex =>
              let m := digits_value (ip ++ fp) in
              Some (if neg then (- m)%Z else m, (ex - Z.of_nat (length fp))%Z)
          end
      end
  end.

Definition literal_of_word (w : string) : option token :=
  if String.eqb w "true" then Some TTrue
  else if String.eqb w "false" then Some TFalse
  else if String.eqb w "null" then Some TNull
  else None.

(** Lexer states; accumulated characters are kept in reverse.  Inside a
    string, [wide] records that an escape above 255 was met. *)
Inductive lex_state : Type :=
| LIdle
| LWord (w : list ascii)
| LNumber (w : list ascii)
| LString (w : list ascii) (wide : bool)
| LEscape (w : list ascii) (wide : bool)
| LUnicode (w : list ascii) (wide : bool) (ds : list N).

Definition punctuation (c : ascii) : option token :=
  let n := code c in
  if (n =? 123)%N then Some TLBrace
  else if (n =? 125)%N then Some TRBrace
  else if (n =? 91)%N then Some TLBracket
  else if (n =? 93)%N then Some TRBracket
  else if (n =? 44)%N then Some TComma
  else if (n =? 58)%N then Some TColon
  else None.

(** A character met outside a string, word or number. *)
Definition lex_idle (c : ascii) (acc : list token)
  : option (lex_state * list token) :=
  if is_ws c then Some (LIdle, acc)
  else if (code c =? 34)%N then Some (LString [] false, acc)
  else if is_letter c then Some (LWord [c], acc)
  else if is_number_char c then Some (LNumber [c], acc)
  else match punctuation c with
       | Some t => Some (LIdle, t :: acc)
       | None => None
       end.

Definition close_word (w : list ascii) (acc : list token)
  : option (list token) :=
  match literal_of_word (string_of_list_ascii (rev w)) with
  | Some t => Some (t :: acc)
  | None => None
  end.

Definition close_number (w : list ascii) (acc : list token)
  : option (list token) :=
  match number_of_lexeme (rev w) with
  | Some (m, e) => Some (TNumber m e :: acc)
  | None => None
  end.

Definition close_string (w : list ascii) (wide : bool) : token :=
  if wide then TWide else TString (string_of_list_ascii (rev w)).

Definition escape_char (c : ascii) : option ascii :=
  let n := code c in
  if ((n =? 34) || (n =? 92) || (n =? 47))%N then Some c
  else if (n =? 98)%N then Some (ascii_of_N 8)
  else if (n =? 102)%N then Some (ascii_of_N 12)
  else if (n =? 110)%N then Some (ascii_of_N 10)
  else if (n =? 114)%N then Some (ascii_of_N 13)
  else if (n =? 116)%N then Some (ascii_of_N 9)
  else None.

Definition lex_step (st : lex_state) (c : ascii) (acc : list token)
  : option (lex_state * list token) :=
  match st with
  | LIdle => lex_idle c acc
  | LWord w =>
      if is_letter c then Some (LWord (c :: w), acc)
      else match close_word w acc with
           | Some acc' => lex_idle c acc'
           | None => None
           end
  | LNumber w =>
      if is_number_char c then Some (LNumber (c :: w), acc)
      else match close_number w acc with
           | Some acc' => lex_idle c acc'
           | None => None
           end
  | LString w wide =>
      if (code c =? 34)%N then Some (LIdle, close_string w wide :: acc)
      else if (code c =? 92)%N then Some (LEscape w wide, acc)
      else if (code c <? 32)%N then None
      else Some (LString (c :: w) wide, acc)
  | LEscape w wide =>
      if (code c =? 117)%N then Some (LUnicode w wide [], acc)
      else match escape_char c with
           | Some c' => Some (LString (c' :: w) wide, acc)
           | None => None
           end
  | LUnicode w wide ds =>
      match hex_value c with
      | None => None
      | Some d =>
          match ds with
          | [d3; d2; d1] =>
              let u := (((d1 * 16 + d2) * 16 + d3) * 16 + d)%N in
              if (u <? 256)%N then Some (LString (ascii_of_N u :: w) wide, acc)
              else Some (LString w true, acc)
          | _ => Some (LUnicode w wide (d :: ds), acc)
          end
      end
  end.

Fixpoint lex (st : lex_state) (s : string) (acc : list token)
  : option (list token) :=
  match s with
  | String c s' =>
      match lex_step st c acc with
      | Some (st', acc') => lex st' s' acc'
      | None => None
      end
  | EmptyString =>
      match st with
      | LIdle => Some (rev acc)
      | LWord w => option_map (@rev token) (close_word w acc)
      | LNumber w => option_map (@rev token) (close_number w acc)
      | LString _ _ | LEscape _ _ | LUnicode _ _ _ => None
      end
  end.

(** The key whose value is being read; a property under a wide key is read
    and not kept (the code reads no property under such a name). *)
Inductive pending : Type :=
| NoKey
| Key (k : string)
| WideKey.

(** An open container and the members read so far. *)
Inductive frame : Type :=
| FArr (acc : list jsval)
| FObj (acc : list (string * jsval)) (key : pending).

Inductive parse_mode : Type :=
| MValue (closable : bool)
| MKey (closable : bool)
| MColon
| MAfter
| MDone (v : jsval).

(** A repeated key keeps its place and takes the later value. *)
Fixpoint obj_set (k : string) (v : jsval) (fs : list (string * jsval))
  : list (string * jsval) :=
  match fs with
  | [] => [(k, v)]
  | (k', v') :: fs' =>
      if String.eqb k k' then (k', v) :: fs' else (k', v') :: obj_set k v fs'
  end.

Definition push_value (v : jsval) (stack : list frame)
  : option (list frame * parse_mode) :=
  match stack with
  | [] => Some ([], MDone v)
  | FArr acc :: st => Some (FArr (v :: acc) :: st, MAfter)
  | FObj acc (Key k) :: st => Some (FObj (obj_set k v acc) NoKey :: st, MAfter)
  | FObj acc WideKey :: st => Some (FObj acc NoKey :: st, MAfter)
  | FObj _ NoKey :: _ => None
  end.

Definition close_array (stack : list frame)
  : option (list frame * parse_mode) :=
  match stack with
  | FArr acc :: st => push_value (JArr (rev acc)) st
  | _ => None
  end.

Definition close_object (stack : list frame)
  : option (list frame * parse_mode) :=
  match stack with
  | FObj acc NoKey :: st => push_value (JObj acc) st
  | _ => None
  end.

Definition parse_step (stack : list frame) (mode : parse_mode) (t : token)
  : option (list frame * parse_mode) :=
  match mode with
  | MValue closable =>
      match t with
      | TString s => push_value (JStr s) stack
      | TWide => push_value JWide stack
      | TNumber m e => push_value (JNum m e) stack
      | TTrue => push_value (JBool true) stack
      | TFalse => push_value (JBool false) stack
      | TNull => push_value JNull stack
      | TLBracket => Some (FArr [] :: stack, MValue true)
      | TLBrace => Some (FObj [] NoKey :: stack, MKey true)
      | TRBracket => if closable then close_array stack else None
      | _ => None
      end
  | MKey closable =>
      match t, stack with
      | TString k, FObj acc NoKey :: st => Some (FObj acc (Key k) :: st, MColon)
      | TWide, FObj acc NoKey :: st => Some (FObj acc WideKey :: st, MColon)
      | TRBrace, _ => if closable then close_object stack else None
      | _, _ => None
      end
  | MColon =>
      match t with TColon => Some (stack, MValue false) | _ => None end
  | MAfter =>
      match t, stack with
      | TComma, FArr _ :: _ => Some (stack, MValue false)
      | TComma, FObj _ _ :: _ => Some (stack, MKey false)
      | TRBracket, _ => close_array stack
      | TRBrace, _ => close_object stack
      | _, _ => None
      end
  | MDone _ => None
  end.

Fixpoint parse_tokens (stack : list frame) (mode : parse_mode)
  (ts : list token) : option jsval :=
  match ts with
  | t :: ts' =>
      match parse_step stack mode t with
      | Some (stack', mode') => parse_tokens stack' mode' ts'
      | None => None
      end
  | [] => match mode with MDone v => Some v | _ => None end
  end.

(** [JSON.parse(text)]: [None] is a [SyntaxError]. *)
Definition JSON_parse (text : string) : option jsval :=
  match lex LIdle text [] with
  | Some ts => parse_tokens [] (MValue false) ts
  | None => None
  end.

(** ** Configuration ([CONFIG] of app.js) *)

Module CONFIG.
Definition FAVORITES_KEY : string := "accounts:favs".
Definition THEME_KEY : string := "accounts:theme".
Definition VERSION_KEY : string := "accounts:version".
Definition APP_VERSION : string := "2.0".
Definition DEFAULT_THEME : string := "light".
End CONFIG.

(** ** Accounts and filter criteria *)

(** The object [normalizeAccount] returns: nine properties, each holding
    whatever value the expression of that property evaluates to. *)
Module Account.
Record t : Type := Build {
  id : jsval;
  bank : jsval;
  title : jsval;
  acc_no : jsval;
  iban : jsval;
  currency : jsval;
  purpose : jsval;
  note : jsval;
  logo : jsval
}.
End Account.

(** [currentFilters]. *)
Module Filters.
Record t : Type := Build {
  search : string;
  currency : string;
  purpose : string;
  favoritesOnly : bool
}.
End Filters.

(** ** The world

    [localStorage] with the schedule of its failures, the module state of
    the [App] closure, and the part of the DOM the pipeline touches.  Each
    access to [localStorage] consumes one entry of [faults]; [true] makes
    that access throw.  An exhausted schedule means no further failure. *)
Record world : Type := World {
  localStorage : gmap string string;
  faults : list bool;
  prefersDark : bool;
  allAccounts : list Account.t;
  filteredAccounts : list Account.t;
  favorites : jsval;
  currentTheme : string;
  currentFilters : Filters.t;
  dataTheme : option string;
  toastContainer : bool;
  toasts : list (string * string)
}.

Definition set_localStorage (m : gmap string string) (w : world) : world :=
  World m (faults w) (prefersDark w) (allAccounts w) (filteredAccounts w)
    (favorites w) (currentTheme w) (currentFilters w) (dataTheme w)
    (toastContainer w) (toasts w).

Definition set_faults (fs : list bool) (w : world) : world :=
  World (localStorage w) fs (prefersDark w) (allAccounts w)
    (filteredAccounts w) (favorites w) (currentTheme w) (currentFilters w)
    (dataTheme w) (toastContainer w) (toasts w).

Definition set_allAccounts (l : list Account.t) (w : world) : world :=
  World (localStorage w) (faults w) (prefersDark w) l (filteredAccounts w)
    (favorites w) (currentTheme w) (currentFilters w) (dataTheme w)
    (toastContainer w) (toasts w).

Definition set_filteredAccounts (l : list Account.t) (w : world) : world :=
  World (localStorage w) (faults w) (prefersDark w) (allAccounts w) l
    (favorites w) (currentTheme w) (currentFilters w) (dataTheme w)
    (toastContainer w) (toasts w).

Definition set_favorites (v : jsval) (w : world) : world :=
  World (localStorage w) (faults w) (prefersDark w) (allAccounts w)
    (filteredAccounts w) v (currentTheme w) (currentFilters w) (dataTheme w)
    (toastContainer w) (toasts w).

Definition set_currentTheme (t : string) (w : world) : world :=
  World (localStorage w) (faults w) (prefersDark w) (allAccounts w)
    (filteredAccounts w) (favorites w) t (currentFilters w) (dataTheme w)
    (toastContainer w) (toasts w).

Definition set_currentFilters (f : Filters.t) (w : world) : world :=
  World (localStorage w) (faults w) (prefersDark w) (allAccounts w)
    (filteredAccounts w) (favorites w) (currentTheme w) f (dataTheme w)
    (toastContainer w) (toasts w).

Definition set_dataTheme (t : option string) (w : world) : world :=
  World (localStorage w) (faults w) (prefersDark w) (allAccounts w)
    (filteredAccounts w) (favorites w) (currentTheme w) (currentFilters w) t
    (toastContainer w) (toasts w).

Definition set_toasts (ts : list (string * string)) (w : world) : world :=
  World (localStorage w) (faults w) (prefersDark w) (allAccounts w)
    (filteredAccounts w) (favorites w) (currentTheme w) (currentFilters w)
    (dataTheme w) (toastContainer w) ts.

(** ** The monad of the code *)

Definition M (A : Type) : Type := world -> outcome A * world.

Definition ret {A} (a : A) : M A := fun w => (Ret a, w).

Definition throw {A} (e : exn) : M A := fun w => (Throw e, w).

Definition lift {A} (o : outcome A) : M A := fun w => (o, w).

Definition bind {A B} (c : M A) (k : A -> M B) : M B :=
  fun w =>
    match c w with
    | (Ret a, w') => k a w'
    | (Throw e, w') => (Throw e, w')
    | (Beyond, w') => (Beyond, w')
    end.

(** [try { body } catch (e) { handler }]. *)
Definition try_catch {A} (body : M A) (handler : exn -> M A) : M A :=
  fun w =>
    match body w with
    | (Throw e, w') => handler e w'
    | r => r
    end.

Declare Scope js_scope.
Delimit Scope js_scope with js.
Notation "x <- c ;; k" := (bind c (fun x => k))
  (at level 100, c at next level, right associativity) : js_scope.
Notation "c ;; k" := (bind c (fun _ => k))
  (at level 100, right associativity) : js_scope.
Open Scope js_scope.

(** [xs.forEach(f)]. *)
Fixpoint forEach {A} (xs : list A) (f : A -> M unit) : M unit :=
  match xs with
  | [] => ret tt
  | x :: xs' => f x ;; forEach xs' f
  end.

(** [JSON.parse] as a step of the code. *)
Definition JSON_parse_m (text : string) : M jsval :=
  match JSON_parse text with
  | Some v => ret v
  | None => throw SyntaxError
  end.


(** ** [localStorage] *)

Definition storage_access : M unit :=
  fun w =>
    let w' := set_faults (tail (faults w)) w in
    if head (faults w) is Some true then (Throw DOMException, w')
    else (Ret tt, w').

(** [localStorage.getItem(key)]: [None] is [null]. *)
Definition getItem (key : string) : M (option string) :=
  storage_access ;; fun w => (Ret (localStorage w !! key), w).

Definition setItem (key value : string) : M unit :=
  storage_access ;;
  fun w => (Ret tt, set_localStorage (<[key := value]> (localStorage w)) w).

Definition removeItem (key : string) : M unit :=
  storage_access ;;
  fun w => (Ret tt, set_localStorage (delete key (localStorage w)) w).

(** [Object.keys(localStorage)]. *)
Definition storage_keys : M (list string) :=
  storage_access ;; fun w => (Ret (map fst (map_to_list (localStorage w))), w).

(** Truthiness of what [getItem] returns. *)
Definition truthy_item (o : option string) : bool :=
  match o with
  | Some s => negb (String.eqb s "")
  | None => false
  end.

(** [x && ["light", "dark"].includes(x)]. *)
Definition valid_theme (o : option string) : bool :=
  match o with
  | Some s => truthy_item o && str_in s ["light"; "dark"]
  | None => false
  end.

(** ** Toasts *)

Definition showToast (message type : string) : M unit :=
  fun w =>
    if toastContainer w
    then (Ret tt, set_toasts (toasts w ++ [(message, type)]) w)
    else (Ret tt, w).

(** ** Version migration *)

Definition v1Keys : list string :=
  [ "accountsApp:settings"; "accountsApp:preferences"; "accountsApp:cache";
    "accounts:cache"; "accounts:settings" ].

(** The [v1] to [v2] rules: the [if (storedVersion < "2.0")] block. *)
Definition migrate_v1 (theme favs : option string) : M unit :=
  (if valid_theme theme then ret tt else removeItem CONFIG.THEME_KEY) ;;
  match favs with
  | Some text =>
      if truthy_item favs then
        try_catch
          (parsed <- JSON_parse_m text ;;
           if isArray parsed then ret tt
           else throw (Error "Invalid favorites format"))
          (fun _ => removeItem CONFIG.FAVORITES_KEY)
      else ret tt
  | None => ret tt
  end ;;
  forEach v1Keys (fun key =>
    item <- getItem key ;;
    if truthy_item item then removeItem key else ret tt).

(** The [try] block of [migrateLocalStorageData]. *)
Definition migrate_body : M unit :=
  storedVersion <- getItem CONFIG.VERSION_KEY ;;
  let currentVersion := CONFIG.APP_VERSION in
  match storedVersion with
  | None => setItem CONFIG.VERSION_KEY currentVersion
  | Some v =>
      if negb (truthy_item storedVersion)
      then setItem CONFIG.VERSION_KEY currentVersion
      else if String.eqb v currentVersion then ret tt
      else
        theme <- getItem CONFIG.THEME_KEY ;;
        favs <- getItem CONFIG.FAVORITES_KEY ;;
        (if String.ltb v "2.0" then migrate_v1 theme favs else ret tt) ;;
        setItem CONFIG.VERSION_KEY currentVersion ;;
        showToast "App updated! Your preferences have been preserved."
          "success"
  end.

(** The [catch] block of [migrateLocalStorageData]. *)
Definition migrate_fallback : M unit :=
  theme <- getItem CONFIG.THEME_KEY ;;
  favs <- getItem CONFIG.FAVORITES_KEY ;;
  let keysToPreserve := [CONFIG.THEME_KEY; CONFIG.FAVORITES_KEY] in
  keys <- storage_keys ;;
  forEach keys (fun key =>
    if startsWith "accounts:" key && negb (str_in key keysToPreserve)
    then removeItem key else ret tt) ;;
  match theme with
  | Some t => if valid_theme theme then setItem CONFIG.THEME_KEY t else ret tt
  | None => ret tt
  end ;;
  try_catch
    match favs with
    | Some text =>
        if truthy_item favs then
          JSON_parse_m text ;;
          setItem CONFIG.FAVORITES_KEY text
        else ret tt
    | None => ret tt
    end
    (fun _ => ret tt) ;;
  setItem CONFIG.VERSION_KEY CONFIG.APP_VERSION ;;
  showToast "App updated with clean settings." "warning".

Definition migrateLocalStorageData : M unit :=
  try_catch migrate_body (fun _ => migrate_fallback).

(** ** Theme *)

(** [applyTheme(theme)]: the [data-theme] attribute and [currentTheme]. *)
Definition applyTheme (theme : string) : M unit :=
  fun w => (Ret tt, set_currentTheme theme (set_dataTheme (Some theme) w)).

(** [initializeTheme()], for a configured [CONFIG.DEFAULT_THEME] (the file
    header allows ["light"], ["dark"] and ["system"]).  [prefersDark] is
    what [matchMedia("(prefers-color-scheme: dark)").matches] answers.  The
    listener registered for later changes of that answer is not part of
    the start-up run. *)
Definition initializeTheme (DEFAULT_THEME : string) : M unit :=
  try_catch
    (savedTheme <- getItem CONFIG.THEME_KEY ;;
     fun w =>
       let defaultTheme :=
         if String.eqb DEFAULT_THEME "system"
         then (if prefersDark w then "dark" else "light")
         else DEFAULT_THEME in
       let theme :=
         match savedTheme with
         | Some s => if truthy_item savedTheme then s else defaultTheme
         | None => defaultTheme
         end in
       applyTheme theme (set_currentTheme theme w))
    (fun _ => fun w => applyTheme "light" (set_currentTheme "light" w)).

(** ** [JSON.stringify] *)

Definition dquote : string := String (ascii_of_N 34) "".

Definition hex_digit (n : N) : ascii :=
  if (n <? 10)%N then ascii_of_N (48 + n) else ascii_of_N (87 + n).

Definition quote_char (c : ascii) : string :=
  let n := code c in
  if (n =? 34)%N then "\" ++ dquote
  else if (n =? 92)%N then "\\"
  else if (n =? 8)%N then "\b"
  else if (n =? 12)%N then "\f"
  else if (n =? 10)%N then "\n"
  else if (n =? 13)%N then "\r"
  else if (n =? 9)%N then "\t"
  else if (n <? 32)%N
       then "\u00" ++ String (hex_digit (n / 16)) (String (hex_digit (n mod 16)) "")
  else String c "".

Fixpoint quote_chars (s : string) : string :=
  match s with
  | EmptyString => EmptyString
  | String c s' => quote_char c ++ quote_chars s'
  end.

Definition quote (s : string) : string := dquote ++ quote_chars s ++ dquote.

(** Decimal digits of a natural number, most significant first; a number
    has at most [log2 n + 1] of them, which is the fuel given below. *)
Fixpoint digits_go (fuel : nat) (n : N) (acc : string) : string :=
  match fuel with
  | O => acc
  | S fuel' =>
      let acc' := String (ascii_of_N (48 + n mod 10)) acc in
      if (n <? 10)%N then acc' else digits_go fuel' (n / 10) acc'
  end.

Definition integer_to_string (z : Z) : string :=
  let n := Z.to_N (Z.abs z) in
  let ds := digits_go (S (N.to_nat (N.log2 n))) n "" in
  if (z <? 0)%Z then "-" ++ ds else ds.

(** [JSON.stringify(v)] for [null], booleans, strings, integers up to
    [2^53] in absolute value, and arrays of these.  The printing of other
    numbers, the property order of objects and the result for [undefined]
    are not represented. *)
Fixpoint JSON_stringify (v : jsval) : outcome string :=
  match v with
  | JNull => Ret "null"
  | JBool b => Ret (if b then "true" else "false")
  | JStr s => Ret (quote s)
  | JNum m e =>
      if (e =? 0)%Z && (Z.abs m <=? 2 ^ 53)%Z
      then Ret (integer_to_string m) else Beyond
  | JArr l =>
      let element x :=
        match x with
        | JUndefined => Ret "null"
        | _ => JSON_stringify x
        end in
      let! parts := sequence (map element l) in
      Ret ("[" ++ String.concat "," parts ++ "]")
  | JUndefined | JWide | JObj _ => Beyond
  end.

(** ** Favorites *)

(** [loadFavorites()]. *)
Definition loadFavorites : M unit :=
  try_catch
    (stored <- getItem CONFIG.FAVORITES_KEY ;;
     match stored with
     | Some text =>
         if truthy_item stored
         then (parsed <- JSON_parse_m text ;;
               fun w => (Ret tt, set_favorites parsed w))
         else fun w => (Ret tt, set_favorites (JArr []) w)
     | None => fun w => (Ret tt, set_favorites (JArr []) w)
     end)
    (fun _ => fun w => (Ret tt, set_favorites (JArr []) w)).

(** [saveFavorites()]. *)
Definition saveFavorites : M unit :=
  try_catch
    (fun w =>
       (text <- lift (JSON_stringify (favorites w)) ;;
        setItem CONFIG.FAVORITES_KEY text) w)
    (fun _ => ret tt).

(** [arr.indexOf(x)]: the first index holding a value [=== x]. *)
Fixpoint indexOf (arr : list jsval) (x : jsval) : outcome (option nat) :=
  match arr with
  | [] => Ret None
  | y :: arr' =>
      match strict_equals y x with
      | Some true => Ret (Some O)
      | Some false => obind (indexOf arr' x) (fun i => Ret (option_map S i))
      | None => Beyond
      end
  end.

(** [favorites.includes(accountId)].  On the values here SameValueZero and
    [===] agree.  A [favorites] that is a string answers with
    [String.prototype.includes]; other values have no [includes]. *)
Definition isFavorite (favs : jsval) (accountId : jsval) : outcome bool :=
  match favs with
  | JArr arr =>
      obind (indexOf arr accountId)
        (fun i => Ret match i with Some _ => true | None => false end)
  | JStr s =>
      match accountId with
      | JStr t => Ret (includes t s)
      | _ => Beyond
      end
  | JWide => Beyond
  | _ => Throw TypeError
  end.

(** ** Normalisation *)

Fixpoint lookup_prop (k : string) (fs : list (string * jsval)) : jsval :=
  match fs with
  | [] => JUndefined
  | (k', v) :: fs' => if String.eqb k k' then v else lookup_prop k fs'
  end.

(** [raw.k], for the property names the code reads: none of them is an
    index, [length] or a member of a prototype, so only an object can hold
    one.  Reading a property of [null] or [undefined] throws. *)
Definition prop (raw : jsval) (k : string) : outcome jsval :=
  match raw with
  | JUndefined | JNull => Throw TypeError
  | JObj fs => Ret (lookup_prop k fs)
  | _ => Ret JUndefined
  end.

(** [raw.k || rest]. *)
Definition or_prop (raw : jsval) (k : string) (rest : outcome jsval)
  : outcome jsval :=
  obind (prop raw k) (fun v => if truthy v then Ret v else rest).

(** [normalizeAccount(raw)]; [random] is what [String(Math.random())]
    evaluates to should it be reached. *)
Definition normalizeAccount (random : string) (raw : jsval)
  : outcome Account.t :=
  let! id := or_prop raw "id" (or_prop raw "ID" (Ret (JStr random))) in
  let! bank := or_prop raw "Bank" (or_prop raw "bank" (Ret (JStr "Unknown Bank"))) in
  let! title := or_prop raw "Title" (or_prop raw "title" (Ret (JStr "Account"))) in
  let! acc_no :=
    or_prop raw "acc_no"
      (or_prop raw "acct_no" (or_prop raw "account_number" (Ret (JStr "")))) in
  let! iban := or_prop raw "iban" (or_prop raw "IBAN" (Ret (JStr ""))) in
  let! currency := or_prop raw "currency" (or_prop raw "Currency" (Ret (JStr "PKR"))) in
  let! purpose := or_prop raw "purpose" (or_prop raw "Purpose" (Ret (JStr "General"))) in
  let! note := or_prop raw "note" (or_prop raw "Note" (Ret (JStr ""))) in
  let! logo := or_prop raw "logo" (Ret JNull) in
  Ret (Account.Build id bank title acc_no iban currency purpose note logo).

(** [getSampleData()]. *)
Definition getSampleData : list jsval :=
  [ JObj [ ("Bank", JStr "Faysal Bank");
           ("Title", JStr "Al-Rahman Trading Co.");
           ("acc_no", JStr "4587123900456712");
           ("iban", JStr "PK36FAYS0045871239004567");
           ("id", JStr "1");
           ("currency", JStr "PKR");
           ("purpose", JStr "Business");
           ("logo", JStr "./assets/Faysal_Bank.svg") ];
    JObj [ ("Bank", JStr "Allied Bank");
           ("Title", JStr "Bilal & Sons Electronics");
           ("acc_no", JStr "7890123456789012");
           ("iban", JStr "PK74ABPA0078901234567890");
           ("id", JStr "2");
           ("currency", JStr "PKR");
           ("purpose", JStr "Business");
           ("logo", JStr "./assets/allied_bank.svg") ];
    JObj [ ("Bank", JStr "JazzCash");
           ("Title", JStr "Ayesha Fatima");
           ("acc_no", JStr "03211234567");
           ("iban", JStr "PK15JCMA0412900321123456");
           ("id", JStr "3");
           ("currency", JStr "PKR");
           ("purpose", JStr "Mobile Wallet");
           ("logo", JStr "./assets/jazzcash.svg") ] ].

(** ** Loading *)

(** What [fetch(url)] and [response.json()] came to: a rejected fetch, or a
    response with its [ok] flag and its body, [None] when the body is not
    JSON. *)
Inductive response : Type :=
| Rejected
| Response (ok : bool) (json : option jsval).

(** [data.map(normalizeAccount)]; the element at index [i] draws
    [random i]. *)
Fixpoint map_normalize (random : nat -> string) (i : nat) (data : list jsval)
  : outcome (list Account.t) :=
  match data with
  | [] => Ret []
  | raw :: data' =>
      let! account := normalizeAccount (random i) raw in
      let! accounts := map_normalize random (S i) data' in
      Ret (account :: accounts)
  end.

Definition assign_allAccounts (accounts : list Account.t)
  : M (list Account.t) :=
  fun w => (Ret accounts, set_allAccounts accounts w).

(** [loadData(url)]. *)
Definition loadData (net : response) (random : nat -> string)
  : M (list Account.t) :=
  try_catch
    match net with
    | Rejected => throw TypeError
    | Response ok json =>
        if negb ok then throw (Error "HTTP") else
        match json with
        | None => throw SyntaxError
        | Some (JArr data) =>
            accounts <- lift (map_normalize random 0 data) ;;
            assign_allAccounts accounts
        | Some _ => throw (Error "Invalid data format: expected an array")
        end
    end
    (fun _ =>
       showToast "Failed to load accounts. Using sample data." "warning" ;;
       accounts <- lift (map_normalize random 0 getSampleData) ;;
       assign_allAccounts accounts).

(** ** Filtering *)

(** [field && field.toLowerCase().includes(searchTerm)]. *)
Definition matches_field (searchTerm : string) (field : jsval) : outcome bool :=
  if truthy field then
    match field with
    | JStr s => Ret (includes searchTerm (toLowerCase s))
    | JWide => Beyond
    | _ => Throw TypeError
    end
  else Ret false.

(** [fields.some(matches)]. *)
Fixpoint some_field (searchTerm : string) (fields : list jsval) : outcome bool :=
  match fields with
  | [] => Ret false
  | field :: fields' =>
      let! hit := matches_field searchTerm field in
      if hit then Ret true else some_field searchTerm fields'
  end.

(** [a !== b]. *)
Definition strict_differs (a b : jsval) : outcome bool :=
  match strict_equals a b with
  | Some eq => Ret (negb eq)
  | None => Beyond
  end.

(** The callback of [allAccounts.filter] in [applyFilters]. *)
Definition passes (f : Filters.t) (favs : jsval) (account : Account.t)
  : outcome bool :=
  let! matchesSearch :=
    if negb (String.eqb (Filters.search f) "") then
      let searchTerm := toLowerCase (Filters.search f) in
      let searchableFields :=
        [ Account.bank account; Account.title account; Account.acc_no account;
          Account.iban account; Account.purpose account; Account.note account ] in
      some_field searchTerm searchableFields
    else Ret true in
  if negb matchesSearch then Ret false else
  let! otherCurrency :=
    if negb (String.eqb (Filters.currency f) "all")
    then strict_differs (Account.currency account) (JStr (Filters.currency f))
    else Ret false in
  if otherCurrency then Ret false else
  let! otherPurpose :=
    if negb (String.eqb (Filters.purpose f) "all")
    then strict_differs (Account.purpose account) (JStr (Filters.purpose f))
    else Ret false in
  if otherPurpose then Ret false else
  if Filters.favoritesOnly f then isFavorite favs (Account.id account)
  else Ret true.

(** [accounts.filter(callback)]. *)
Fixpoint filter_accounts (f : Filters.t) (favs : jsval)
  (accounts : list Account.t) : outcome (list Account.t) :=
  match accounts with
  | [] => Ret []
  | account :: accounts' =>
      let! keep := passes f favs account in
      let! kept := filter_accounts f favs accounts' in
      Ret (if keep then account :: kept else kept)
  end.

(** [applyFilters()]: the assignment to [filteredAccounts]; the rendering
    of the result that follows it is the rendering layer. *)
Definition applyFilters : M unit :=
  fun w =>
    match filter_accounts (currentFilters w) (favorites w) (allAccounts w) with
    | Ret kept => (Ret tt, set_filteredAccounts kept w)
    | Throw e => (Throw e, w)
    | Beyond => (Beyond, w)
    end.

(** [toggleFavorite(accountId)].  Only an array has both [indexOf] and
    [splice]/[push].  The calls that redraw the favorite button and the
    favorites strip are the rendering layer. *)
Definition toggleFavorite (accountId : jsval) : M unit :=
  (fun w =>
     match favorites w with
     | JArr arr =>
         match indexOf arr accountId with
         | Ret (Some index) =>
             showToast "Removed from favorites" "success"
               (set_favorites (JArr (delete index arr)) w)
         | Ret None =>
             showToast "Added to favorites" "success"
               (set_favorites (JArr (arr ++ [accountId])) w)
         | Throw e => (Throw e, w)
         | Beyond => (Beyond, w)
         end
     | _ => (Throw TypeError, w)
     end) ;;
  saveFavorites ;;
  fun w =>
    if Filters.favoritesOnly (currentFilters w) then applyFilters w
    else (Ret tt, w).

(** ** The older script, [app_backup.js] *)

Module Backup.

(** Its [normalizeAccount]: an object of eight properties. *)
Definition normalizeAccount (random : string) (raw : jsval) : outcome jsval :=
  let! id := or_prop raw "id" (or_prop raw "ID" (Ret (JStr random))) in
  let! bank := or_prop raw "Bank" (or_prop raw "bank" (Ret (JStr "Unknown Bank"))) in
  let! title := or_prop raw "Title" (or_prop raw "title" (Ret (JStr "Account"))) in
  let! acc_no :=
    or_prop raw "acc_no"
      (or_prop raw "acct_no" (or_prop raw "account_number" (Ret (JStr "")))) in
  let! iban := or_prop raw "iban" (or_prop raw "IBAN" (Ret (JStr ""))) in
  let! currency := or_prop raw "currency" (or_prop raw "Currency" (Ret (JStr "PKR"))) in
  let! purpose := or_prop raw "purpose" (or_prop raw "Purpose" (Ret (JStr "General"))) in
  let! note := or_prop raw "note" (or_prop raw "Note" (Ret (JStr ""))) in
  Ret (JObj [ ("id", id); ("bank", bank); ("title", title);
              ("acc_no", acc_no); ("iban", iban); ("currency", currency);
              ("purpose", purpose); ("note", note) ]).

Fixpoint map_normalize (random : nat -> string) (i : nat) (data : list jsval)
  : outcome (list jsval) :=
  match data with
  | [] => Ret []
  | raw :: data' =>
      let! account := normalizeAccount (random i) raw in
      let! accounts := map_normalize random (S i) data' in
      Ret (account :: accounts)
  end.

(** Its [loadData(url)]: the value assigned to [allAccounts] and
    returned.  [getSampleData()] is the same table as in app.js. *)
Definition loadData (net : response) (random : nat -> string) : list jsval :=
  let attempt : outcome (list jsval) :=
    match net with
    | Rejected => Throw TypeError
    | Response ok json =>
        if negb ok then Throw (Error "HTTP") else
        match json with
        | None => Throw SyntaxError
        | Some (JArr data) => map_normalize random 0 data
        | Some _ => Throw (Error "Invalid data format: expected an array")
        end
    end in
  match attempt with
  | Ret accounts => accounts
  | _ => getSampleData
  end.

End Backup.

(** ** Masking for display

    [maskAccountNumber] and [maskIBAN] work on the UTF-16 code units of
    their argument, a string; the bullet they insert is the code unit
    U+2022, which lies outside the 8-bit strings of the rest of the
    embedding.  Here a string is the list of its code units. *)

(** The code units of an 8-bit string. *)
Definition units_of (s : string) : list N :=
  map code (list_ascii_of_string s).

Definition bullet : N := 8226.

Definition blank : N := 32.

(** [s.slice(start, end)], [None] standing for an omitted [end]: a negative
    index counts from the end, and both are clamped to the length. *)
Definition slice {A} (s : list A) (start : Z) (stop : option Z) : list A :=
  let len := Z.of_nat (length s) in
  let clamp i := if (i <? 0)%Z then Z.max (len + i) 0 else Z.min i len in
  let from := clamp start in
  let to := match stop with Some e => clamp e | None => len end in
  take (Z.to_nat (to - from)) (drop (Z.to_nat from) s).

(** [maskAccountNumber(number)]. *)
Definition maskAccountNumber (number : list N) : list N :=
  if (length number =? 0)%nat || (length number <=? 8)%nat then number
  else
    let first := slice number 0 (Some 4%Z) in
    let last := slice number (-4) None in
    let middle :=
      replicate (Z.to_nat (Z.min (Z.of_nat (length number) - 8) 12)) bullet in
    (first ++ middle ++ last)%list.

(** [maskIBAN(iban)]. *)
Definition maskIBAN (iban : list N) : list N :=
  if (length iban =? 0)%nat || (length iban <=? 8)%nat then iban
  else
    let first := slice iban 0 (Some 4%Z) in
    let last := slice iban (-4) None in
    let middle :=
      replicate (Z.to_nat (Z.min (Z.of_nat (length iban) - 8) 16)) bullet in
    (first ++ [blank] ++ middle ++ [blank] ++ last)%list.

(** ** Theme toggle *)

(** [toggleTheme()]. *)
Definition toggleTheme : M unit :=
  fun w =>
    let newTheme :=
      if String.eqb (currentTheme w) "light" then "dark" else "light" in
    (applyTheme newTheme ;;
     try_catch (setItem CONFIG.THEME_KEY newTheme) (fun _ => ret tt) ;;
     showToast ("Switched to " ++ newTheme ++ " mode") "success") w.

(** ** The favorites strip *)

(** [CONFIG.MAX_FAVORITES_DISPLAY]. *)
Definition MAX_FAVORITES_DISPLAY : nat := 3.

(** [accounts.filter((account) => isFavorite(account.id))]. *)
Fixpoint filter_favorites (favs : jsval) (accounts : list Account.t)
  : outcome (list Account.t) :=
  match accounts with
  | [] => Ret []
  | account :: accounts' =>
      let! keep := isFavorite favs (Account.id account) in
      let! kept := filter_favorites favs accounts' in
      Ret (if keep then account :: kept else kept)
  end.

(** The [favoriteAccounts] of [renderFavoritesStrip()], which it computes
    when the strip container exists and then draws. *)
Definition favoriteAccounts (w : world) : outcome (list Account.t) :=
  let! favs := filter_favorites (favorites w) (allAccounts w) in
  Ret (slice favs 0 (Some (Z.of_nat MAX_FAVORITES_DISPLAY))).

(** ** The handlers of the filter bar *)



(** The change of the purpose select in [setupFilters()]. *)
Definition purpose_change (purpose : string) : M unit :=
  fun w =>
    let f := currentFilters w in
    applyFilters
      (set_currentFilters
         (Filters.Build (Filters.search f) (Filters.currency f) purpose
            (Filters.favoritesOnly f)) w).


(** ** Start-up *)

Definition set_toastContainer (present : bool) (w : world) : world :=
  World (localStorage w) (faults w) (prefersDark w) (allAccounts w)
    (filteredAccounts w) (favorites w) (currentTheme w) (currentFilters w)
    (dataTheme w) present (toasts w).

(** [cacheDOMElements()], as far as the closure state kept here goes:
    [DOM.toastContainer] becomes the element of that ID when the page has
    one.  Before this call [DOM] is the empty object. *)
Definition cacheDOMElements (page_has_toast_container : bool) : M unit :=
  fun w => (Ret tt, set_toastContainer page_has_toast_container w).

(** [init()]: the first three calls of its [try] block and its [catch]
    block; [rest] stands for the statements of the [try] block that follow
    [initializeTheme()]. *)
Definition init (page_has_toast_container : bool) (rest : M unit) : M unit :=
  try_catch
    (migrateLocalStorageData ;;
     cacheDOMElements page_has_toast_container ;;
     initializeTheme CONFIG.DEFAULT_THEME ;;
     rest)
    (fun _ => showToast "Failed to initialize app" "error").

(** ** The filter of the older script *)

Module BackupFilter.

(** An element as [Array.prototype.join] writes it: nothing for [null]
    and [undefined].  The text of numbers, arrays and objects is not
    represented. *)
Definition join_element (v : jsval) : outcome string :=
  match v with
  | JUndefined | JNull => Ret ""
  | JStr s => Ret s
  | JBool b => Ret (if b then "true" else "false")
  | _ => Beyond
  end.

(** [fields.join(sep)]. *)
Fixpoint join (sep : string) (fields : list jsval) : outcome string :=
  match fields with
  | [] => Ret ""
  | v :: fields' =>
      let! s := join_element v in
      match fields' with
      | [] => Ret s
      | _ :: _ =>
          let! rest := join sep fields' in
          Ret (s ++ sep ++ rest)
      end
  end.

(** The callback of [allAccounts.filter] in the [applyFilters] of
    [app_backup.js]; an account is the object its [normalizeAccount]
    returned, or a raw record of the sample table. *)
Definition passes (f : Filters.t) (favs : jsval) (account : jsval)
  : outcome bool :=
  let! matchesSearch :=
    if negb (String.eqb (Filters.search f) "") then
      let searchTerm := toLowerCase (Filters.search f) in
      let! bank := prop account "bank" in
      let! title := prop account "title" in
      let! acc_no := prop account "acc_no" in
      let! iban := prop account "iban" in
      let! purpose := prop account "purpose" in
      let! note := prop account "note" in
      let! joined := join " " [bank; title; acc_no; iban; purpose; note] in
      let searchableText := toLowerCase joined in
      Ret (includes searchTerm searchableText)
    else Ret true in
  if negb matchesSearch then Ret false else
  let! otherCurrency :=
    if negb (String.eqb (Filters.currency f) "all")
    then (let! currency := prop account "currency" in
          strict_differs currency (JStr (Filters.currency f)))
    else Ret false in
  if otherCurrency then Ret false else
  let! otherPurpose :=
    if negb (String.eqb (Filters.purpose f) "all")
    then (let! purpose := prop account "purpose" in
          strict_differs purpose (JStr (Filters.purpose f)))
    else Ret false in
  if otherPurpose then Ret false else
  if Filters.favoritesOnly f
  then (let! id := prop account "id" in isFavorite favs id)
  else Ret true.

End BackupFilter.

(** ** The purpose options *)

(** [[...new Set(values)]]: the first occurrence of each value, in order
    of appearance.  On the values represented here SameValueZero, which a
    [Set] compares by, and [===] agree. *)
Fixpoint distinct (seen values : list jsval) : outcome (list jsval) :=
  match values with
  | [] => Ret []
  | v :: values' =>
      let! index := indexOf seen v in
      match index with
      | Some _ => distinct seen values'
      | None =>
          let! rest := distinct (seen ++ [v]) values' in
          Ret (v :: rest)
      end
  end.

(** The [purposes] of [populatePurposeOptions()]: the values the options
    added to the purpose select carry. *)
Definition purposes (w : world) : outcome (list jsval) :=
  distinct [] (List.filter truthy (map Account.purpose (allAccounts w))).

(** ** Initials *)

(** [s.split(" ")]: the pieces between blanks, empty pieces included. *)
Fixpoint split_blank (s : string) : list string :=
  match s with
  | EmptyString => [EmptyString]
  | String c s' =>
      if Ascii.eqb c " " then EmptyString :: split_blank s'
      else match split_blank s' with
           | word :: words => String c word :: words
           | [] => [String c EmptyString]
           end
  end.

(** [word.charAt(0)]: the empty string on the empty word. *)
Definition charAt0 (word : string) : string :=
  match word with
  | EmptyString => EmptyString
  | String c _ => String c EmptyString
  end.

(** [String.prototype.toUpperCase] on one code unit below 256, as code
    units: the sharp s becomes two letters, and the micro sign and the y
    with diaeresis leave the 8-bit range. *)
Definition upper_unit (c : ascii) : list N :=
  let n := code c in
  if ((97 <=? n) && (n <=? 122))%N then [(n - 32)%N]
  else if (n =? 181)%N then [924%N]
  else if (n =? 223)%N then [83%N; 83%N]
  else if ((224 <=? n) && (n <=? 254) && negb (n =? 247))%N then [(n - 32)%N]
  else if (n =? 255)%N then [376%N]
  else [n].

(** [getBankInitials(bankName)], on a string of 8-bit code units; the
    result is the list of its code units. *)
Definition getBankInitials (bankName : string) : list N :=
  let letters := String.concat "" (map charAt0 (split_blank bankName)) in
  slice (flat_map upper_unit (list_ascii_of_string letters)) 0 (Some 3%Z).

(** * Vocabulary of the statements *)

(** Number of failures left in the schedule. *)
Fixpoint count_faults (fs : list bool) : nat :=
  match fs with
  | [] => 0
  | b :: fs' => (if b then 1 else 0) + count_faults fs'
  end.

Definition fault_count (w : world) : nat := count_faults (faults w).

(** [wp c Q E w]: run from [w], [c] returns in a world satisfying [Q] or
    throws in a world satisfying [E], and stays inside the embedding. *)
Definition wp {A} (c : M A) (Q : A -> world -> Prop)
  (E : exn -> world -> Prop) (w : world) : Prop :=
  match c w with
  | (Ret a, w') => Q a w'
  | (Throw e, w') => E e w'
  | (Beyond, _) => False
  end.

(** The default theme the configuration stands for: the system preference
    when it says ["system"], else the configured literal. *)
Definition configured_default (DEFAULT_THEME : string) (w : world) : string :=
  if String.eqb DEFAULT_THEME "system"
  then (if prefersDark w then "dark" else "light")
  else DEFAULT_THEME.

(** Following the spec: [hay] contains [text] as a case-insensitive
    substring when some substring of [hay] equals [text] up to case. *)
Definition contains_ignoring_case (hay text : string) : Prop :=
  exists pre mid post,
    hay = pre ++ mid ++ post /\ toLowerCase mid = toLowerCase text.

(** A string whose content the embedding represents. *)
Definition is_text (v : jsval) : bool :=
  match v with JStr _ => true | _ => false end.

(** An account as the data model declares it: the eight canonical fields
    hold strings. *)
Definition canonical (a : Account.t) : Prop :=
  is_text (Account.id a) && is_text (Account.bank a)
  && is_text (Account.title a) && is_text (Account.acc_no a)
  && is_text (Account.iban a) && is_text (Account.currency a)
  && is_text (Account.purpose a) && is_text (Account.note a) = true.

(** Following the spec: the six fields the search text is looked up in. *)
Definition searchable (a : Account.t) : list jsval :=
  [ Account.bank a; Account.title a; Account.acc_no a;
    Account.iban a; Account.purpose a; Account.note a ].

(** Following the spec: an account passes when all active predicates
    hold. *)
Definition Visible (f : Filters.t) (ids : list string) (a : Account.t) : Prop :=
  (Filters.search f = "" \/
   exists s, In (JStr s) (searchable a) /\
             contains_ignoring_case s (Filters.search f)) /\
  (Filters.currency f = "all" \/ Account.currency a = JStr (Filters.currency f)) /\
  (Filters.purpose f = "all" \/ Account.purpose a = JStr (Filters.purpose f)) /\
  (Filters.favoritesOnly f = true ->
   exists i, Account.id a = JStr i /\ In i ids).

(** The neutral criteria. *)
Definition neutral : Filters.t := Filters.Build "" "all" "all" false.



(** Following the spec: the first truthy candidate in priority order wins,
    otherwise the default. *)
Fixpoint first_truthy (candidates : list jsval) (default : jsval) : jsval :=
  match candidates with
  | [] => default
  | v :: candidates' => if truthy v then v else first_truthy candidates' default
  end.

(** The values a record holds under a list of keys, in that order. *)
Definition values_at (fs : list (string * jsval)) (keys : list string)
  : list jsval :=
  map (fun k => lookup_prop k fs) keys.

(** A field that is neither [undefined] nor [null]. *)
Definition defined (v : jsval) : Prop := v <> JUndefined /\ v <> JNull.

(** The eight canonical fields of an account. *)
Definition canonical_values (a : Account.t) : list jsval :=
  [ Account.id a; Account.bank a; Account.title a; Account.acc_no a;
    Account.iban a; Account.currency a; Account.purpose a; Account.note a ].

(** The keys [normalizeAccount] reads for the canonical fields. *)
Definition source_keys : list string :=
  [ "id"; "ID"; "Bank"; "bank"; "Title"; "title"; "acc_no"; "acct_no";
    "account_number"; "iban"; "IBAN"; "currency"; "Currency"; "purpose";
    "Purpose"; "note"; "Note" ].

(** The load fails: the fetch is rejected, the status is not a success, the
    body is not JSON, its top level is not an array, or normalising one of
    its elements throws. *)
Definition load_fails (net : response) (random : nat -> string) : Prop :=
  match net with
  | Rejected => True
  | Response ok json =>
      ok = false \/
      match json with
      | None => True
      | Some (JArr data) => exists e, map_normalize random 0 data = Throw e
      | Some _ => True
      end
  end.

(** The canonical property [k] is missing from the object [a]. *)
Definition lacks (k : string) (a : jsval) : Prop := prop a k = Ret JUndefined.

(** The store holds [t] under the theme key and [f] under the favorites
    key. *)
Definition holds (t f : option string) (w : world) : Prop :=
  localStorage w !! CONFIG.THEME_KEY = t /\
  localStorage w !! CONFIG.FAVORITES_KEY = f.

(** No failure is left and the two keys hold [t] and [f]. *)
Definition calm_holding (t f : option string) (w : world) : Prop :=
  fault_count w = 0 /\ holds t f w.

(** * Concrete stores and worlds *)

(** The state of the [App] closure when the script starts, over a given
    [localStorage] and schedule of storage failures. *)
Definition start (storage : gmap string string) (fs : list bool) : world :=
  World storage fs false [] [] (JArr []) "light"
    (Filters.Build "" "all" "all" false) None false [].

(** A version-1 store with an unparsable favorites value. *)
Definition store_v1_corrupt : gmap string string :=
  <[CONFIG.VERSION_KEY := "1.0"]> (<[CONFIG.FAVORITES_KEY := "[oops"]> ∅).

(** A store left by a later release: version ["3.0"], theme and favorites
    values that the version-1 rules would have discarded. *)
Definition store_v3 : gmap string string :=
  <[CONFIG.VERSION_KEY := "3.0"]>
    (<[CONFIG.THEME_KEY := "sepia"]> (<[CONFIG.FAVORITES_KEY := "{}"]> ∅)).

(** An up-to-date store whose theme value is neither literal. *)
Definition store_blue : gmap string string :=
  <[CONFIG.VERSION_KEY := "2.0"]> (<[CONFIG.THEME_KEY := "blue"]> ∅).

(** The fallback table after normalisation. *)
Definition sample_accounts : list Account.t :=
  match map_normalize (fun _ => "0.5") 0 getSampleData with
  | Ret accounts => accounts
  | _ => []
  end.

(** Three accounts loaded, the third one a favorite, the user searching for
    [jazz]. *)
Definition world_searching_jazz : world :=
  set_currentFilters (Filters.Build "jazz" "all" "all" false)
    (set_favorites (JArr (map JStr ["3"]))
       (set_allAccounts sample_accounts (start ∅ []))).

(** Accounts that are not canonical and favorites that are not a
    sequence. *)
Definition world_untyped : world :=
  set_favorites (JNum 7 0)
    (set_allAccounts
       [Account.Build (JNum 1 0) (JBool true) JNull (JArr []) (JObj [])
          JWide (JNum 0 0) JUndefined JNull]
       (start ∅ [])).

(** The sample accounts in favorites-only mode, no favorite yet. *)
Definition world_favorites_only : world :=
  set_currentFilters (Filters.Build "" "all" "all" true)
    (set_allAccounts sample_accounts (start ∅ [])).


(** The page is loaded again: the closure starts afresh over the store,
    the failure schedule and the system preference as they are. *)
Definition reload (w : world) : world :=
  World (localStorage w) (faults w) (prefersDark w) [] [] (JArr []) "light"
    (Filters.Build "" "all" "all" false) None false [].

(** One of the two theme literals. *)
Definition theme_literal (t : string) : Prop := t = "light" \/ t = "dark".


(** The account's ID is one of [ids]. *)
Definition favorite_in (ids : list string) (a : Account.t) : bool :=
  match Account.id a with
  | JStr i => str_in i ids
  | _ => false
  end.

(** The sample accounts with the first two as favorites, a store that
    refuses the write. *)
Definition world_two_favorites : world :=
  set_favorites (JArr (map JStr ["1"; "2"]))
    (set_allAccounts sample_accounts (start ∅ [true])).

(** The same accounts, the favorites in another order. *)
Definition world_two_favorites_swapped : world :=
  set_favorites (JArr (map JStr ["2"; "1"])) world_two_favorites.

(** The tokens of a JSON array of strings. *)
Definition string_array_tokens (ids : list string) : list token :=
  match ids with
  | [] => [TLBracket; TRBracket]
  | x :: rest =>
      (TLBracket :: TString x
       :: flat_map (fun y => [TComma; TString y]) rest ++ [TRBracket])%list
  end.

(** Favorites whose IDs hold a quote, a backslash and a line feed. *)
Definition world_awkward_ids : world :=
  set_favorites
    (JArr (map JStr [ "a" ++ dquote ++ "b"; "c\d";
                      String (ascii_of_N 10) "e" ]))
    (start ∅ []).

(** The criteria [f'] ask for at least what [f] asks for: the search text
    of [f] is a piece of that of [f'], a currency or purpose chosen in [f]
    is the one chosen in [f'], and favorites-only in [f] is favorites-only
    in [f']. *)
Definition narrower (f' f : Filters.t) : Prop :=
  (exists pre post,
     Filters.search f' = pre ++ Filters.search f ++ post) /\
  (Filters.currency f = "all" \/ Filters.currency f' = Filters.currency f) /\
  (Filters.purpose f = "all" \/ Filters.purpose f' = Filters.purpose f) /\
  (Filters.favoritesOnly f = true -> Filters.favoritesOnly f' = true).





(** Three accounts filtered by the empty criteria, which shows them all. *)
Definition world_all_shown : world :=
  set_filteredAccounts sample_accounts world_two_favorites.

(** The text parses to an array. *)
Definition parses_to_array (text : string) : bool :=
  match JSON_parse text with
  | Some v => isArray v
  | None => false
  end.

(** What the version-1 rules leave under the theme key: a theme literal
    stays, anything else goes. *)
Definition kept_theme (t : option string) : option string :=
  if valid_theme t then t else None.

(** What they leave under the favorites key: a text that parses to an
    array stays, and so does the empty text, which is not looked at. *)
Definition kept_favorites (f : option string) : option string :=
  match f with
  | Some text => if truthy_item f && negb (parses_to_array text) then None else f
  | None => None
  end.

(** What they leave under an obsolete key: only the empty text. *)
Definition kept_obsolete (o : option string) : option string :=
  if truthy_item o then None else o.

(** The keys the fallback sweeps away: those that start with [accounts:],
    the theme and favorites keys apart. *)
Definition swept (key : string) : bool :=
  startsWith "accounts:" key
  && negb (str_in key [CONFIG.THEME_KEY; CONFIG.FAVORITES_KEY]).

(** A version-1 store: a theme that is no literal, favorites that are an
    object, an obsolete key, and a key of another application. *)
Definition store_v1_mixed : gmap string string :=
  <[CONFIG.VERSION_KEY := "1.4"]>
    (<[CONFIG.THEME_KEY := "sepia"]>
       (<[CONFIG.FAVORITES_KEY := "{}"]>
          (<["accounts:cache" := "x"]> (<["other:key" := "y"]> ∅)))).

(** An up-to-date store with a key of a later feature. *)
Definition store_current_extra : gmap string string :=
  <[CONFIG.VERSION_KEY := "2.0"]>
    (<[CONFIG.THEME_KEY := "sepia"]>
       (<["accounts:recent" := "[1]"]> (<["other:key" := "y"]> ∅))).

(** What the version-1 rules leave under each key. *)
Definition after_v1_rules (s : gmap string string) (k : string)
  : option string :=
  if String.eqb k CONFIG.THEME_KEY then kept_theme (s !! k)
  else if String.eqb k CONFIG.FAVORITES_KEY then kept_favorites (s !! k)
  else if str_in k v1Keys then kept_obsolete (s !! k)
  else s !! k.

(** What a migration without storage failure leaves under each key: the
    current version under the version key; under the others what the
    version-1 rules leave when the stored version is below ["2.0"], and
    what was there otherwise. *)
Definition migrated (s : gmap string string) (k : string) : option string :=
  if String.eqb k CONFIG.VERSION_KEY then Some CONFIG.APP_VERSION
  else
    match s !! CONFIG.VERSION_KEY with
    | Some v =>
        if negb (String.eqb v "") && String.ltb v "2.0"
        then after_v1_rules s k else s !! k
    | None => s !! k
    end.

(** What the safe fallback leaves under each key. *)
Definition after_fallback (s : gmap string string) (k : string)
  : option string :=
  if String.eqb k CONFIG.VERSION_KEY then Some CONFIG.APP_VERSION
  else if swept k then None
  else s !! k.

(** [c] keeps [I], however it ends. *)
Definition keeps {A} (I : world -> Prop) (c : M A) : Prop :=
  forall w, I w -> I (snd (c w)).

(** No toast container is cached, and what the page shows and the closure
    holds is what [w0] had. *)
Definition unseen (w0 w : world) : Prop :=
  toastContainer w = false /\
  toasts w = toasts w0 /\
  dataTheme w = dataTheme w0 /\
  currentTheme w = currentTheme w0 /\
  favorites w = favorites w0 /\
  allAccounts w = allAccounts w0.

(** A first run on a store that refuses every write. *)
Definition world_read_only : world :=
  start ∅ [false; true; false; false; false; true].

(** A value whose properties can be read: anything but [null] and
    [undefined]. *)
Definition readable (raw : jsval) : bool :=
  match raw with
  | JUndefined | JNull => false
  | _ => true
  end.

(** The object a normalised account is. *)
Definition as_object (a : Account.t) : jsval :=
  JObj [ ("id", Account.id a); ("bank", Account.bank a);
         ("title", Account.title a); ("acc_no", Account.acc_no a);
         ("iban", Account.iban a); ("currency", Account.currency a);
         ("purpose", Account.purpose a); ("note", Account.note a);
         ("logo", Account.logo a) ].

(** A data file of two records, the second one an alias-keyed record. *)
Definition two_records : list jsval :=
  [ JObj [("id", JStr "a"); ("Bank", JStr "Meezan")];
    JObj [("ID", JStr "b"); ("bank", JStr "HBL"); ("acct_no", JStr "0099")] ].

(** The same file with a [null] between the records. *)
Definition records_with_null : list jsval :=
  [ JObj [("id", JStr "a"); ("Bank", JStr "Meezan")]; JNull;
    JObj [("ID", JStr "b"); ("bank", JStr "HBL"); ("acct_no", JStr "0099")] ].

(** The page once its toast container is cached. *)
Definition world_page_ready : world := set_toastContainer true (start ∅ []).

(** The second record of the sample table. *)
Definition bilal_record : jsval :=
  JObj [ ("Bank", JStr "Allied Bank");
         ("Title", JStr "Bilal & Sons Electronics");
         ("acc_no", JStr "7890123456789012");
         ("iban", JStr "PK74ABPA0078901234567890");
         ("id", JStr "2");
         ("currency", JStr "PKR");
         ("purpose", JStr "Business");
         ("logo", JStr "./assets/allied_bank.svg") ].

(** The first letters of the words of [s]; [at_start] says that a word
    starts at the head of [s]. *)
Fixpoint first_letters (at_start : bool) (s : string) : string :=
  match s with
  | EmptyString => EmptyString
  | String c s' =>
      if Ascii.eqb c " " then first_letters true s'
      else if at_start then String c (first_letters false s')
      else first_letters false s'
  end.

(** A string of blanks only. *)
Definition only_blanks (s : string) : Prop :=
  Forall (fun c => c = " "%char) (list_ascii_of_string s).

(** * Reasoning rules *)

Lemma wp_ret {A} (a : A) Q E w : Q a w -> wp (ret a) Q E w.
Proof. done. Qed.

Lemma wp_throw {A} e (Q : A -> world -> Prop) E w : E e w -> wp (throw e) Q E w.
Proof. done. Qed.

Lemma wp_bind {A B} (c : M A) (k : A -> M B) Q E w :
  wp c (fun a w' => wp (k a) Q E w') E w -> wp (bind c k) Q E w.
Proof.
  unfold wp, bind. destruct (c w) as [[a|e|] w']; done.
Qed.

Lemma wp_try_catch {A} (body : M A) handler Q E w :
  wp body Q (fun e w' => wp (handler e) Q E w') w ->
  wp (try_catch body handler) Q E w.
Proof.
  unfold wp, try_catch. destruct (body w) as [[a|e|] w']; done.
Qed.

Lemma wp_mono {A} (c : M A) (Q Q' : A -> world -> Prop)
  (E E' : exn -> world -> Prop) w :
  wp c Q E w ->
  (forall a w', Q a w' -> Q' a w') ->
  (forall e w', E e w' -> E' e w') ->
  wp c Q' E' w.
Proof.
  unfold wp. destruct (c w) as [[a|e|] w']; auto.
Qed.

Lemma wp_forEach {A} (I : world -> Prop) E (xs : list A) (f : A -> M unit) w :
  I w ->
  (forall x w', I w' -> wp (f x) (fun _ => I) E w') ->
  wp (forEach xs f) (fun _ => I) E w.
Proof.
  intros HI Hf. revert w HI.
  induction xs as [|x xs IH]; intros w HI; simpl.
  - by apply wp_ret.
  - apply wp_bind. eapply wp_mono; [by apply Hf | | done].
    intros [] w' HI'. by apply IH.
Qed.

(** A storage access from [w]: it fails and uses up one failure, or it
    succeeds and the failures left are the same. *)
Lemma wp_storage_access Q E w :
  (forall w', localStorage w' = localStorage w ->
              fault_count w = S (fault_count w') ->
              E DOMException w') ->
  (forall w', localStorage w' = localStorage w ->
              fault_count w' = fault_count w ->
              Q tt w') ->
  wp storage_access Q E w.
Proof.
  intros HE HQ. unfold wp, storage_access, fault_count in *.
  destruct (faults w) as [|[] fs] eqn:Hf; simpl.
  - apply HQ; by rewrite ?Hf.
  - apply HE; by rewrite ?Hf.
  - apply HQ; by rewrite ?Hf.
Qed.

Lemma wp_getItem key Q E w :
  (forall w', localStorage w' = localStorage w ->
              fault_count w = S (fault_count w') ->
              E DOMException w') ->
  (forall w', localStorage w' = localStorage w ->
              fault_count w' = fault_count w ->
              Q (localStorage w !! key) w') ->
  wp (getItem key) Q E w.
Proof.
  intros HE HQ. unfold getItem. apply wp_bind, wp_storage_access; [done|].
  intros w' Hs Hc. unfold wp. rewrite Hs. by apply HQ.
Qed.

Lemma wp_setItem key value Q E w :
  (forall w', localStorage w' = localStorage w ->
              fault_count w = S (fault_count w') ->
              E DOMException w') ->
  (forall w', localStorage w' = <[key := value]> (localStorage w) ->
              fault_count w' = fault_count w ->
              Q tt w') ->
  wp (setItem key value) Q E w.
Proof.
  intros HE HQ. unfold setItem. apply wp_bind, wp_storage_access; [done|].
  intros w' Hs Hc. unfold wp. apply HQ; [simpl; by rewrite Hs | done].
Qed.

Lemma wp_removeItem key Q E w :
  (forall w', localStorage w' = localStorage w ->
              fault_count w = S (fault_count w') ->
              E DOMException w') ->
  (forall w', localStorage w' = delete key (localStorage w) ->
              fault_count w' = fault_count w ->
              Q tt w') ->
  wp (removeItem key) Q E w.
Proof.
  intros HE HQ. unfold removeItem. apply wp_bind, wp_storage_access; [done|].
  intros w' Hs Hc. unfold wp. apply HQ; [simpl; by rewrite Hs | done].
Qed.

Lemma wp_storage_keys Q E w :
  (forall w', localStorage w' = localStorage w ->
              fault_count w = S (fault_count w') ->
              E DOMException w') ->
  (forall w', localStorage w' = localStorage w ->
              fault_count w' = fault_count w ->
              Q (map fst (map_to_list (localStorage w))) w') ->
  wp storage_keys Q E w.
Proof.
  intros HE HQ. unfold storage_keys. apply wp_bind, wp_storage_access; [done|].
  intros w' Hs Hc. unfold wp. rewrite Hs. by apply HQ.
Qed.

Lemma wp_showToast message type Q E w :
  (forall w', localStorage w' = localStorage w ->
              fault_count w' = fault_count w ->
              Q tt w') ->
  wp (showToast message type) Q E w.
Proof.
  intros HQ. unfold wp, showToast. destruct (toastContainer w); by apply HQ.
Qed.

(** * Migration *)

Ltac storage_rule :=
  first [ apply wp_getItem | apply wp_setItem | apply wp_removeItem
        | apply wp_storage_keys ].

(** With at most one storage failure to come, the [v1] rules either finish
    or fail on the last failure. *)
Lemma migrate_v1_budget theme favs w :
  fault_count w <= 1 ->
  wp (migrate_v1 theme favs)
     (fun _ w' => fault_count w' <= 1) (fun _ w' => fault_count w' = 0) w.
Proof.
  intros Hw. unfold migrate_v1.
  apply wp_bind.
  apply wp_mono with (Q := fun _ w' => fault_count w' <= 1)
                     (E := fun _ w' => fault_count w' = 0); [| | done].
  { destruct (valid_theme theme); [by apply wp_ret|].
    storage_rule; intros; lia. }
  clear w Hw. intros _ w Hw. apply wp_bind.
  apply wp_mono with (Q := fun _ w' => fault_count w' <= 1)
                     (E := fun _ w' => fault_count w' = 0); [| | done].
  { destruct favs as [text|]; [|by apply wp_ret].
    destruct (truthy_item (Some text)); [|by apply wp_ret].
    apply wp_try_catch, wp_bind. unfold JSON_parse_m.
    destruct (JSON_parse text) as [parsed|].
    - apply wp_ret. destruct (isArray parsed); [by apply wp_ret|].
      apply wp_throw. storage_rule; intros; lia.
    - apply wp_throw. storage_rule; intros; lia. }
  clear w Hw. intros _ w Hw.
  apply wp_forEach; [done|].
  clear w Hw. intros key w Hw. apply wp_bind.
  storage_rule; [intros; lia|]. intros w1 _ H1.
  destruct (truthy_item _); [|apply wp_ret; lia].
  storage_rule; intros; lia.
Qed.

(** The [try] block: it finishes with the version recorded, or fails on
    the only failure of the schedule. *)
Lemma migrate_body_spec w :
  fault_count w <= 1 ->
  wp migrate_body
     (fun _ w' => localStorage w' !! CONFIG.VERSION_KEY = Some CONFIG.APP_VERSION)
     (fun _ w' => fault_count w' = 0) w.
Proof.
  intros Hw. unfold migrate_body. apply wp_bind.
  storage_rule; [intros; lia|]. intros w1 Hs1 Hc1.
  destruct (localStorage w !! CONFIG.VERSION_KEY) as [v|] eqn:Hv.
  - destruct (truthy_item (Some v)).
    + simpl. destruct (String.eqb_spec v CONFIG.APP_VERSION) as [->|Hne].
      * apply wp_ret. by rewrite Hs1.
      * apply wp_bind. storage_rule; [intros; lia|]. intros w2 Hs2 Hc2.
        apply wp_bind. storage_rule; [intros; lia|]. intros w3 Hs3 Hc3.
        apply wp_bind.
        apply wp_mono with (Q := fun _ w' => fault_count w' <= 1)
                           (E := fun _ w' => fault_count w' = 0); [| | done].
        { destruct (String.ltb v "2.0").
          - apply migrate_v1_budget. lia.
          - apply wp_ret. lia. }
        intros _ w4 Hc4. apply wp_bind.
        storage_rule; [intros; lia|]. intros w5 Hs5 Hc5.
        apply wp_showToast. intros w6 Hs6 _.
        rewrite Hs6, Hs5. apply lookup_insert_eq.
    + simpl. storage_rule; [intros; lia|]. intros w2 Hs2 _.
      rewrite Hs2. apply lookup_insert_eq.
  - storage_rule; [intros; lia|]. intros w2 Hs2 _.
    rewrite Hs2. apply lookup_insert_eq.
Qed.

(** The [catch] block on a store that no longer fails: it finishes with
    the version recorded. *)
Lemma migrate_fallback_spec w :
  fault_count w = 0 ->
  wp migrate_fallback
     (fun _ w' => localStorage w' !! CONFIG.VERSION_KEY = Some CONFIG.APP_VERSION)
     (fun _ _ => False) w.
Proof.
  intros Hw. unfold migrate_fallback.
  apply wp_bind. storage_rule; [intros; lia|]. intros w1 _ H1.
  apply wp_bind. storage_rule; [intros; lia|]. intros w2 _ H2.
  apply wp_bind. storage_rule; [intros; lia|]. intros w3 _ H3.
  apply wp_bind.
  apply wp_mono with (Q := fun _ w' => fault_count w' = 0)
                     (E := fun _ _ => False); [| | done].
  { apply wp_forEach; [lia|]. intros key w' Hw'.
    destruct (_ && _); [|by apply wp_ret].
    storage_rule; intros; lia. }
  intros _ w4 H4. apply wp_bind.
  apply wp_mono with (Q := fun _ w' => fault_count w' = 0)
                     (E := fun _ _ => False); [| | done].
  { destruct (localStorage w !! CONFIG.THEME_KEY) as [t|]; [|by apply wp_ret].
    destruct (valid_theme (Some t)); [|by apply wp_ret].
    storage_rule; intros; lia. }
  intros _ w5 H5. apply wp_bind.
  apply wp_mono with (Q := fun _ w' => fault_count w' = 0)
                     (E := fun _ _ => False); [| | done].
  { apply wp_try_catch.
    destruct (localStorage w1 !! CONFIG.FAVORITES_KEY) as [text|];
      [|by apply wp_ret].
    destruct (truthy_item (Some text)); [|by apply wp_ret].
    apply wp_bind. unfold JSON_parse_m.
    destruct (JSON_parse text) as [parsed|].
    - apply wp_ret. storage_rule; intros; lia.
    - apply wp_throw. by apply wp_ret. }
  intros _ w6 H6. apply wp_bind.
  storage_rule; [intros; lia|]. intros w7 Hs7 _.
  apply wp_showToast. intros w8 Hs8 _.
  rewrite Hs8, Hs7. apply lookup_insert_eq.
Qed.

Lemma wp_returns {A} (c : M A) Q w :
  wp c Q (fun _ _ => False) w -> exists a w', c w = (Ret a, w') /\ Q a w'.
Proof.
  unfold wp. destruct (c w) as [[a|e|] w']; [eauto | done | done].
Qed.

(** C4, amended.  For every starting store and every schedule with at most
    one storage failure (so that no access fails while the safe-fallback
    path runs), [migrateLocalStorageData] returns normally and the store
    then holds the current schema version under the version key. *)
Theorem migration_records_version (w : world) :
  fault_count w <= 1 ->
  exists w',
    migrateLocalStorageData w = (Ret tt, w') /\
    localStorage w' !! CONFIG.VERSION_KEY = Some CONFIG.APP_VERSION.
Proof.
  intros Hw.
  destruct (wp_returns migrateLocalStorageData
              (fun _ w' => localStorage w' !! CONFIG.VERSION_KEY
                           = Some CONFIG.APP_VERSION) w) as ([] & w' & Hrun & Hv).
  - unfold migrateLocalStorageData. apply wp_try_catch.
    eapply wp_mono; [by apply migrate_body_spec | done |].
    intros e w' Hw'. by apply migrate_fallback_spec.
  - eauto.
Qed.

Lemma migration_records_version_witness :
  fault_count (start store_v1_corrupt [false; false; true]) <= 1 /\
  exists w',
    migrateLocalStorageData (start store_v1_corrupt [false; false; true])
      = (Ret tt, w') /\
    localStorage w' !! CONFIG.VERSION_KEY = Some CONFIG.APP_VERSION.
Proof.
  split; [vm_compute; lia |].
  apply (migration_records_version (start store_v1_corrupt [false; false; true])).
  vm_compute; lia.
Defined.

(** C4 as stated fails: on a first run over a store that refuses every
    write (reads succeed), the write in the [try] block throws, the
    fallback's own write throws again, the exception leaves
    [migrateLocalStorageData], and no version is recorded. *)
Lemma migration_version_unset_when_writes_fail :
  let w := start ∅ [false; true; false; false; false; true] in
  fst (migrateLocalStorageData w) = Throw DOMException /\
  localStorage (snd (migrateLocalStorageData w)) !! CONFIG.VERSION_KEY = None.
Proof. split; reflexivity. Qed.

(** A version-1 store whose favorites are not JSON: the migration removes
    them and records the version, and the favorites then load as the empty
    sequence. *)
Example migration_v1_corrupt_favorites :
  let w := snd (migrateLocalStorageData (start store_v1_corrupt [])) in
  localStorage w !! CONFIG.VERSION_KEY = Some "2.0" /\
  localStorage w !! CONFIG.FAVORITES_KEY = None /\
  favorites (snd (loadFavorites w)) = JArr [].
Proof. repeat split; reflexivity. Qed.

(** Running the migration a second time changes nothing in the store. *)
Example migration_twice :
  let w := snd (migrateLocalStorageData (start store_v1_corrupt [])) in
  localStorage (snd (migrateLocalStorageData w)) = localStorage w.
Proof. reflexivity. Qed.

(** On a version that is neither current nor below ["2.0"], when no
    storage access fails, the migration writes the version key and nothing
    else. *)
Lemma newer_version_store (w : world) (v : string) :
  localStorage w !! CONFIG.VERSION_KEY = Some v ->
  v <> CONFIG.APP_VERSION ->
  String.ltb v "2.0" = false ->
  fault_count w = 0 ->
  exists w',
    migrateLocalStorageData w = (Ret tt, w') /\
    localStorage w' = <[CONFIG.VERSION_KEY := CONFIG.APP_VERSION]> (localStorage w).
Proof.
  intros Hv Hne Hlt Hw.
  assert (Htruthy : truthy_item (Some v) = true).
  { destruct v; [done | reflexivity]. }
  destruct (wp_returns migrateLocalStorageData
              (fun _ w' => localStorage w'
                 = <[CONFIG.VERSION_KEY := CONFIG.APP_VERSION]> (localStorage w)) w)
    as ([] & w' & Hrun & Hs); [|eauto].
  unfold migrateLocalStorageData. apply wp_try_catch.
  unfold migrate_body. apply wp_bind.
  storage_rule; [intros; lia|]. intros w1 Hs1 Hc1.
  rewrite Hv, Htruthy. simpl.
  destruct (String.eqb_spec v CONFIG.APP_VERSION) as [|_]; [done|].
  apply wp_bind. storage_rule; [intros; lia|]. intros w2 Hs2 Hc2.
  apply wp_bind. storage_rule; [intros; lia|]. intros w3 Hs3 Hc3.
  apply wp_bind. rewrite Hlt. apply wp_ret.
  apply wp_bind. storage_rule; [intros; lia|]. intros w4 Hs4 Hc4.
  apply wp_showToast. intros w5 Hs5 _.
  by rewrite Hs5, Hs4, Hs3, Hs2, Hs1.
Qed.

(** * Theme *)

(** C1, amended.  When the read of the theme key does not fail,
    [initializeTheme] returns normally and the theme in force is the stored
    value whenever that value is a non-empty string, whether or not it is
    one of ["light"] and ["dark"]; the configured default is used only when
    the key is absent or holds the empty string. *)
Theorem initializeTheme_keeps_any_stored_value (DEFAULT_THEME : string) (w : world) :
  head (faults w) <> Some true ->
  exists w',
    initializeTheme DEFAULT_THEME w = (Ret tt, w') /\
    dataTheme w' = Some (currentTheme w') /\
    currentTheme w' =
      match localStorage w !! CONFIG.THEME_KEY with
      | Some s => if String.eqb s "" then configured_default DEFAULT_THEME w else s
      | None => configured_default DEFAULT_THEME w
      end.
Proof.
  intros Hread.
  unfold initializeTheme, try_catch, bind, getItem, storage_access, bind.
  destruct (faults w) as [|[] fs] eqn:Hf; simpl in *; [| done |].
  - eexists. split; [reflexivity|]. simpl. split; [done|].
    unfold configured_default.
    destruct (localStorage w !! CONFIG.THEME_KEY) as [s|]; simpl; [|done].
    by destruct (String.eqb s "").
  - eexists. split; [reflexivity|]. simpl. split; [done|].
    unfold configured_default.
    destruct (localStorage w !! CONFIG.THEME_KEY) as [s|]; simpl; [|done].
    by destruct (String.eqb s "").
Qed.

Lemma initializeTheme_keeps_any_stored_value_witness :
  head (faults (start store_blue [false])) <> Some true /\
  exists w',
    initializeTheme "system" (start store_blue [false]) = (Ret tt, w') /\
    dataTheme w' = Some (currentTheme w') /\
    currentTheme w' =
      match localStorage (start store_blue [false]) !! CONFIG.THEME_KEY with
      | Some s =>
          if String.eqb s ""
          then configured_default "system" (start store_blue [false]) else s
      | None => configured_default "system" (start store_blue [false])
      end.
Proof.
  split; [discriminate |].
  apply (initializeTheme_keeps_any_stored_value "system" (start store_blue [false])).
  discriminate.
Defined.

(** C1 as stated fails: with ["blue"] stored and the default configured as
    in the source, the migration leaves the store alone and the theme in
    force after [initializeTheme] is ["blue"], not the default. *)
Lemma initializeTheme_invalid_value_not_replaced :
  let w := snd (migrateLocalStorageData (start store_blue [])) in
  localStorage w !! CONFIG.THEME_KEY = Some "blue" /\
  valid_theme (Some "blue") = false /\
  configured_default CONFIG.DEFAULT_THEME w = "light" /\
  currentTheme (snd (initializeTheme CONFIG.DEFAULT_THEME w)) = "blue".
Proof. repeat split; reflexivity. Qed.

(** When the read of the theme key throws, the theme is ["light"]. *)
Lemma initializeTheme_read_failure (DEFAULT_THEME : string) (w : world) :
  head (faults w) = Some true ->
  exists w',
    initializeTheme DEFAULT_THEME w = (Ret tt, w') /\ currentTheme w' = "light".
Proof.
  intros Hread.
  unfold initializeTheme, try_catch, bind, getItem, storage_access, bind.
  destruct (faults w) as [|[] fs] eqn:Hf; simpl in *; [done | | done].
  eexists. split; reflexivity.
Qed.

(** * Favorites: loading *)

(** C6, amended.  [loadFavorites] never throws and never writes to the
    store.  The favorites are the empty sequence when the read fails, the
    key is absent, or the stored text is not JSON (the empty text
    included); otherwise they are the value the stored text parses to,
    whatever its shape. *)
Theorem loadFavorites_takes_parsed_value (w : world) :
  exists w',
    loadFavorites w = (Ret tt, w') /\
    localStorage w' = localStorage w /\
    favorites w' =
      match head (faults w), localStorage w !! CONFIG.FAVORITES_KEY with
      | Some true, _ => JArr []
      | _, None => JArr []
      | _, Some text =>
          match JSON_parse text with
          | Some parsed => parsed
          | None => JArr []
          end
      end.
Proof.
  unfold loadFavorites, try_catch, bind, getItem, storage_access, bind.
  destruct (faults w) as [|[] fs] eqn:Hf; simpl.
  - destruct (localStorage w !! CONFIG.FAVORITES_KEY) as [text|]; simpl;
      [|eexists; split; [reflexivity | done]].
    destruct (String.eqb_spec text "") as [->|Hne]; simpl;
      [eexists; split; [reflexivity | done]|].
    unfold JSON_parse_m.
    destruct (JSON_parse text); eexists; (split; [reflexivity | done]).
  - eexists; split; [reflexivity | done].
  - destruct (localStorage w !! CONFIG.FAVORITES_KEY) as [text|]; simpl;
      [|eexists; split; [reflexivity | done]].
    destruct (String.eqb_spec text "") as [->|Hne]; simpl;
      [eexists; split; [reflexivity | done]|].
    unfold JSON_parse_m.
    destruct (JSON_parse text); eexists; (split; [reflexivity | done]).
Qed.

(** C6 as stated fails: the stored text [{}] is JSON, so the favorites
    become the object it denotes, which is not a sequence; the store is
    left as it was. *)
Lemma loadFavorites_object_is_not_a_sequence :
  let w := start (<[CONFIG.FAVORITES_KEY := "{}"]> ∅) [] in
  fst (loadFavorites w) = Ret tt /\
  favorites (snd (loadFavorites w)) = JObj [] /\
  isArray (favorites (snd (loadFavorites w))) = false /\
  localStorage (snd (loadFavorites w)) = localStorage w.
Proof. repeat split; reflexivity. Qed.

(** * Strings: what [startsWith], [includes] and [toLowerCase] compute *)

Lemma append_cons (c : ascii) (s t : string) :
  String c s ++ t = String c (s ++ t).
Proof. reflexivity. Qed.

Lemma append_empty (t : string) : "" ++ t = t.
Proof. reflexivity. Qed.

Lemma startsWith_spec (needle hay : string) :
  startsWith needle hay = true <-> exists post, hay = needle ++ post.
Proof.
  unfold startsWith. revert hay.
  induction needle as [|a needle IH]; intros hay.
  - destruct hay; simpl; split; eauto.
  - destruct hay as [|b hay]; simpl.
    + split; [done | intros [post Hpost]; done].
    + destruct (ascii_dec a b) as [->|Hab].
      * rewrite IH. split; intros [post Hpost]; exists post;
          rewrite append_cons in *; congruence.
      * split; [done | intros [post Hpost]].
        rewrite append_cons in Hpost. congruence.
Qed.

Lemma includes_spec (needle hay : string) :
  includes needle hay = true <-> exists pre post, hay = pre ++ needle ++ post.
Proof.
  induction hay as [|c hay IH].
  - cbn [includes]. rewrite orb_false_r, startsWith_spec. split.
    + intros [post Hpost]. by exists "", post.
    + intros (pre & post & Hpost). destruct pre; [eauto | done].
  - cbn [includes]. rewrite orb_true_iff, startsWith_spec, IH. split.
    + intros [[post Hpost] | (pre & post & Hpost)].
      * by exists "", post.
      * exists (String c pre), post. by rewrite append_cons, Hpost.
    + intros (pre & post & Hpost). destruct pre as [|c' pre].
      * left. eauto.
      * right. exists pre, post. rewrite append_cons in Hpost. congruence.
Qed.

Lemma toLowerCase_app (s t : string) :
  toLowerCase (s ++ t) = toLowerCase s ++ toLowerCase t.
Proof.
  induction s as [|c s IH]; [done|].
  rewrite append_cons. simpl. by rewrite IH.
Qed.

(** A split of a lowered string comes from a split of the string. *)
Lemma toLowerCase_split (s p q : string) :
  toLowerCase s = p ++ q ->
  exists p' q', s = p' ++ q' /\ toLowerCase p' = p /\ toLowerCase q' = q.
Proof.
  revert s. induction p as [|c p IH]; intros s Hs.
  - by exists "", s.
  - rewrite append_cons in Hs. destruct s as [|d s]; simpl in Hs; [done|].
    injection Hs as Hc Hs. destruct (IH s Hs) as (p' & q' & -> & Hp & Hq).
    exists (String d p'), q'. simpl. by rewrite Hc, Hp.
Qed.

Lemma toLowerCase_empty (s : string) : toLowerCase s = "" -> s = "".
Proof. by destruct s. Qed.

Lemma includes_lowered (text hay : string) :
  includes (toLowerCase text) (toLowerCase hay) = true
  <-> contains_ignoring_case hay text.
Proof.
  rewrite includes_spec. unfold contains_ignoring_case. split.
  - intros (p & q & Hs).
    destruct (toLowerCase_split _ _ _ Hs) as (pre & rest & -> & <- & Hrest).
    destruct (toLowerCase_split _ _ _ Hrest) as (mid & post & -> & Hmid & <-).
    by exists pre, mid, post.
  - intros (pre & mid & post & -> & Hmid).
    exists (toLowerCase pre), (toLowerCase post).
    by rewrite !toLowerCase_app, Hmid.
Qed.

(** * Filtering *)

Lemma matches_field_text (term s : string) :
  term <> "" ->
  matches_field term (JStr s) = Ret (includes term (toLowerCase s)).
Proof.
  intros Hterm. unfold matches_field. simpl.
  destruct s as [|c s]; simpl; [|done].
  destruct term; [done | reflexivity].
Qed.

Lemma some_field_texts (term : string) (texts : list string) :
  term <> "" ->
  some_field term (map JStr texts)
  = Ret (existsb (fun s => includes term (toLowerCase s)) texts).
Proof.
  intros Hterm. induction texts as [|s texts IH]; simpl; [done|].
  rewrite matches_field_text by done. simpl.
  destruct (includes term (toLowerCase s)); [done | by rewrite IH].
Qed.

Lemma indexOf_texts (ids : list string) (x : string) :
  exists i, indexOf (map JStr ids) (JStr x) = Ret i /\
    match i with
    | Some n => ids !! n = Some x
    | None => ~ In x ids
    end.
Proof.
  induction ids as [|y ids (i & Hi & Hspec)]; simpl.
  - exists None. split; [done | tauto].
  - destruct (String.eqb_spec y x) as [->|Hne].
    + by exists (Some 0).
    + rewrite Hi. simpl. exists (S <$> i). split; [done|].
      destruct i as [n|]; simpl; [done | tauto].
Qed.

Lemma isFavorite_texts (ids : list string) (x : string) :
  exists b, isFavorite (JArr (map JStr ids)) (JStr x) = Ret b /\
            (b = true <-> In x ids).
Proof.
  destruct (indexOf_texts ids x) as (i & Hi & Hspec).
  unfold isFavorite. rewrite Hi. simpl. eexists. split; [reflexivity|].
  destruct i as [n|].
  - split; [intros _ | done].
    apply list_elem_of_In, list_elem_of_lookup. eauto.
  - split; [done | tauto].
Qed.

Lemma strict_differs_text (v : jsval) (s : string) :
  exists b, strict_differs v (JStr s) = Ret b /\ (b = false <-> v = JStr s).
Proof.
  unfold strict_differs.
  destruct v as [| |b|m e|t| |l|fs]; simpl;
    try (eexists; split; [reflexivity | split; done]).
  eexists. split; [reflexivity|].
  destruct (String.eqb_spec t s) as [->|Hne]; simpl; split; congruence.
Qed.

Lemma search_texts (text : string) (texts : list string) :
  exists b,
    (if negb (String.eqb text "")
     then some_field (toLowerCase text) (map JStr texts)
     else Ret true) = Ret b /\
    (b = true <->
     text = "" \/
     exists s, In (JStr s) (map JStr texts) /\ contains_ignoring_case s text).
Proof.
  destruct (String.eqb_spec text "") as [->|Hne]; simpl.
  - exists true. split; [done | tauto].
  - rewrite some_field_texts by (intros H; by apply toLowerCase_empty in H).
    eexists. split; [reflexivity|]. rewrite existsb_exists. split.
    + intros (s & Hs & Hinc). right. exists s. split.
      * by apply in_map.
      * by apply includes_lowered.
    + intros [? | (s & Hs & Hinc)]; [done|]. exists s. split.
      * apply in_map_iff in Hs as (s' & [= ->] & Hs'). done.
      * by apply includes_lowered.
Qed.

Lemma differs_filter (v : jsval) (wanted : string) :
  exists b,
    (if negb (String.eqb wanted "all")
     then strict_differs v (JStr wanted)
     else Ret false) = Ret b /\
    (b = false <-> wanted = "all" \/ v = JStr wanted).
Proof.
  destruct (String.eqb_spec wanted "all") as [->|Hne]; simpl.
  - exists false. split; [done | tauto].
  - destruct (strict_differs_text v wanted) as (b & -> & Hb).
    exists b. split; [done | tauto].
Qed.

Lemma favorite_filter (only : bool) (ids : list string) (x : string) :
  exists b,
    (if only then isFavorite (JArr (map JStr ids)) (JStr x) else Ret true)
    = Ret b /\
    (b = true <-> (only = true -> exists i, JStr x = JStr i /\ In i ids)).
Proof.
  destruct only.
  - destruct (isFavorite_texts ids x) as (b & -> & Hb).
    exists b. split; [done|]. rewrite Hb. split.
    + intros Hx _. by exists x.
    + intros Hx. destruct (Hx eq_refl) as (i & [= ->] & Hi). done.
  - exists true. split; [done|]. split; [intros _ ? | ]; done.
Qed.

(** On a canonical account and favorites that are an array of strings, the
    filter callback returns, and answers [true] exactly on the visible
    accounts. *)
Lemma passes_canonical (f : Filters.t) (ids : list string) (a : Account.t) :
  canonical a ->
  exists b, passes f (JArr (map JStr ids)) a = Ret b /\
            (b = true <-> Visible f ids a).
Proof.
  unfold canonical. intros Ha.
  destruct a as [id bank title acc_no iban currency purpose note logo].
  simpl in Ha. repeat (apply andb_prop in Ha as [Ha ?]).
  destruct id as [| | | |id| | |]; try done.
  destruct bank as [| | | |bank| | |]; try done.
  destruct title as [| | | |title| | |]; try done.
  destruct acc_no as [| | | |acc_no| | |]; try done.
  destruct iban as [| | | |iban| | |]; try done.
  destruct currency as [| | | |currency| | |]; try done.
  destruct purpose as [| | | |purpose| | |]; try done.
  destruct note as [| | | |note| | |]; try done.
  clear. unfold passes, Visible, searchable. cbn [Account.id Account.bank
    Account.title Account.acc_no Account.iban Account.currency
    Account.purpose Account.note].
  change [JStr bank; JStr title; JStr acc_no; JStr iban; JStr purpose; JStr note]
    with (map JStr [bank; title; acc_no; iban; purpose; note]).
  destruct (search_texts (Filters.search f)
              [bank; title; acc_no; iban; purpose; note]) as (b1 & -> & H1).
  destruct (differs_filter (JStr currency) (Filters.currency f)) as (b2 & H2 & H2').
  destruct (differs_filter (JStr purpose) (Filters.purpose f)) as (b3 & H3 & H3').
  destruct (favorite_filter (Filters.favoritesOnly f) ids id) as (b4 & H4 & H4').
  cbn [obind]. destruct b1; cbn [negb].
  - rewrite H2. cbn [obind]. destruct b2.
    + exists false. split; [done|]. split; [done|]. intros (_ & Hc & _).
      by apply H2' in Hc.
    + rewrite H3. cbn [obind]. destruct b3.
      * exists false. split; [done|]. split; [done|]. intros (_ & _ & Hp & _).
        by apply H3' in Hp.
      * rewrite H4. exists b4. split; [done|]. rewrite H4'. tauto.
  - exists false. split; [done|]. split; [done|]. intros (Hs & _).
    by apply H1 in Hs.
Qed.

(** [filter_accounts] on canonical accounts: it returns, and keeps exactly
    the visible ones. *)
Lemma filter_accounts_canonical (f : Filters.t) (ids : list string)
  (accounts : list Account.t) :
  Forall canonical accounts ->
  exists kept,
    filter_accounts f (JArr (map JStr ids)) accounts = Ret kept /\
    sublist kept accounts /\
    forall a, In a kept <-> In a accounts /\ Visible f ids a.
Proof.
  induction 1 as [|a accounts Ha _ (kept & IH & Hsub & Hkept)]; simpl.
  - exists []. split; [done|]. split; [apply sublist_nil|].
    intros a'. simpl. tauto.
  - destruct (passes_canonical f ids a Ha) as (b & -> & Hb).
    rewrite IH. cbn [obind]. eexists. split; [reflexivity|].
    destruct b.
    + split; [by apply sublist_skip|]. intros a'. simpl. rewrite Hkept. split.
      * intros [<- | [? ?]]; [split; [by left | by apply Hb] | tauto].
      * intros [[<- | ?] ?]; [by left | tauto].
    + split; [by apply sublist_cons|]. intros a'. rewrite Hkept. simpl. split.
      * tauto.
      * intros [[<- | ?] Hv]; [|tauto]. by apply Hb in Hv.
Qed.



(** The search for [jazz] keeps the JazzCash account and nothing else. *)
Example search_jazz :
  map Account.bank (filteredAccounts (snd (applyFilters world_searching_jazz)))
  = [JStr "JazzCash"].
Proof. reflexivity. Qed.

Lemma filter_accounts_neutral (favs : jsval) (accounts : list Account.t) :
  filter_accounts neutral favs accounts = Ret accounts.
Proof.
  induction accounts as [|a accounts IH]; simpl; [done|]. by rewrite IH.
Qed.

(** C8.  With the neutral criteria, whatever the accounts and whatever the
    favorites hold, [applyFilters] returns normally and [filteredAccounts]
    is [allAccounts], same records in the same order. *)
Theorem applyFilters_neutral_is_identity (w : world) :
  currentFilters w = neutral ->
  exists w',
    applyFilters w = (Ret tt, w') /\ filteredAccounts w' = allAccounts w.
Proof.
  intros Hf. unfold applyFilters. rewrite Hf, filter_accounts_neutral.
  eexists. split; reflexivity.
Qed.

Lemma applyFilters_neutral_is_identity_witness :
  currentFilters world_untyped = neutral /\
  exists w',
    applyFilters world_untyped = (Ret tt, w') /\
    filteredAccounts w' = allAccounts world_untyped.
Proof.
  split; [reflexivity|].
  exact (applyFilters_neutral_is_identity world_untyped eq_refl).
Defined.

(** * Favorites: toggling *)

Lemma sequence_rets {A} (xs : list A) : sequence (map Ret xs) = Ret xs.
Proof. induction xs as [|x xs IH]; simpl; [done | by rewrite IH]. Qed.

Lemma stringify_elements_texts (ids : list string) :
  sequence
    (map (fun x => match x with
                   | JUndefined => Ret "null"
                   | _ => JSON_stringify x
                   end) (map JStr ids))
  = Ret (map quote ids).
Proof. induction ids as [|x ids IH]; simpl; [done | by rewrite IH]. Qed.

Lemma JSON_stringify_texts (ids : list string) :
  JSON_stringify (JArr (map JStr ids))
  = Ret ("[" ++ String.concat "," (map quote ids) ++ "]").
Proof.
  cbn [JSON_stringify]. by rewrite stringify_elements_texts.
Qed.








(** The six clicks above leave the favorites [1] and [3] and the list
    filtered down to them; the store holds their JSON text. *)
Example six_clicks :
  let w := snd (forEach (map JStr ["3"; "1"; "3"; "2"; "2"; "3"])
                  toggleFavorite world_favorites_only) in
  favorites w = JArr [JStr "1"; JStr "3"] /\
  map Account.id (filteredAccounts w) = [JStr "1"; JStr "3"] /\
  localStorage w !! CONFIG.FAVORITES_KEY
  = Some ("[" ++ quote "1" ++ "," ++ quote "3" ++ "]").
Proof. repeat split; reflexivity. Qed.


(** * Normalisation *)

(** One step of a chain of [||] over the properties of an object. *)
Lemma or_prop_ret (fs : list (string * jsval)) (k : string) (rest : jsval) :
  or_prop (JObj fs) k (Ret rest)
  = Ret (first_truthy (values_at fs [k]) rest).
Proof.
  unfold or_prop, values_at. simpl. by destruct (truthy (lookup_prop k fs)).
Qed.

(** C3, amended.  On every raw record each canonical field takes the first
    truthy value in the priority order the code fixes, else its default.
    The order is: [id], [ID]; [Bank], [bank]; [Title], [title]; [acc_no],
    [acct_no], [account_number]; [iban], [IBAN]; [currency], [Currency];
    [purpose], [Purpose]; [note], [Note]; [logo].  For the bank and the
    title the capitalised key comes first. *)
Theorem normalizeAccount_priority (random : string) (fs : list (string * jsval)) :
  normalizeAccount random (JObj fs)
  = Ret (Account.Build
           (first_truthy (values_at fs ["id"; "ID"]) (JStr random))
           (first_truthy (values_at fs ["Bank"; "bank"]) (JStr "Unknown Bank"))
           (first_truthy (values_at fs ["Title"; "title"]) (JStr "Account"))
           (first_truthy (values_at fs ["acc_no"; "acct_no"; "account_number"])
              (JStr ""))
           (first_truthy (values_at fs ["iban"; "IBAN"]) (JStr ""))
           (first_truthy (values_at fs ["currency"; "Currency"]) (JStr "PKR"))
           (first_truthy (values_at fs ["purpose"; "Purpose"]) (JStr "General"))
           (first_truthy (values_at fs ["note"; "Note"]) (JStr ""))
           (first_truthy (values_at fs ["logo"]) JNull)).
Proof.
  unfold normalizeAccount. rewrite !or_prop_ret. reflexivity.
Qed.

(** A record with [Bank] and [acc_no] only: the rest is defaulted, the
    identifier drawn at random. *)
Example normalizeAccount_defaults :
  normalizeAccount "0.5" (JObj [("Bank", JStr "X"); ("acc_no", JStr "123456789012")])
  = Ret (Account.Build (JStr "0.5") (JStr "X") (JStr "Account")
           (JStr "123456789012") (JStr "") (JStr "PKR") (JStr "General")
           (JStr "") JNull).
Proof. reflexivity. Qed.

(** C3 as stated fails: with [bank] and [Bank] both set, the capitalised
    alias wins over the lowercase key. *)
Lemma normalizeAccount_capitalised_bank_wins :
  let raw := JObj [("bank", JStr "lower"); ("Bank", JStr "Upper")] in
  exists a, normalizeAccount "0.5" raw = Ret a /\ Account.bank a = JStr "Upper".
Proof. eexists. split; reflexivity. Qed.

Lemma first_truthy_defined (candidates : list jsval) (default : jsval) :
  defined default -> defined (first_truthy candidates default).
Proof.
  intros Hd. induction candidates as [|v candidates IH]; simpl; [done|].
  destruct (truthy v) eqn:Hv; [|done]. by destruct v.
Qed.

Lemma first_truthy_string (candidates : list jsval) (default : jsval) :
  is_string default = true ->
  Forall (fun v => truthy v = true -> is_string v = true) candidates ->
  is_string (first_truthy candidates default) = true.
Proof.
  intros Hd. induction 1 as [|v candidates Hv _ IH]; simpl; [done|].
  destruct (truthy v); auto.
Qed.

(** C5, amended.  On every raw record [normalizeAccount] returns an
    account, and each of the eight canonical fields is defined, neither
    [undefined] nor [null].  Each of them is a string provided every truthy
    value the record holds under the keys read is a string: a truthy value
    of another type is passed on as it is. *)
Theorem normalizeAccount_total_defaulted (random : string)
  (fs : list (string * jsval)) :
  exists a,
    normalizeAccount random (JObj fs) = Ret a /\
    Forall defined (canonical_values a) /\
    (Forall (fun v => truthy v = true -> is_string v = true)
       (values_at fs source_keys) ->
     Forall (fun v => is_string v = true) (canonical_values a)).
Proof.
  eexists. split.
  { unfold normalizeAccount. rewrite !or_prop_ret. reflexivity. }
  unfold canonical_values. cbn [Account.id Account.bank Account.title
    Account.acc_no Account.iban Account.currency Account.purpose
    Account.note].
  split.
  - repeat (apply Forall_cons; split;
            [repeat apply first_truthy_defined; by split|]).
    apply Forall_nil_2.
  - intros Hsrc. unfold values_at, source_keys in Hsrc. cbn [map] in Hsrc.
    repeat match type of Hsrc with
           | Forall _ (_ :: _) =>
               let H := fresh "H" in apply Forall_cons in Hsrc as [H Hsrc]
           end.
    repeat (apply Forall_cons; split;
            [repeat (apply first_truthy_string;
                     [|apply Forall_cons; split;
                       [assumption | apply Forall_nil_2]]);
             reflexivity |]).
    apply Forall_nil_2.
Qed.

(** C5 as stated fails: a numeric [bank] is truthy, so it is passed on and
    the normalised [bank] is a number, not a string. *)
Lemma normalizeAccount_number_stays_number :
  let raw := JObj [("id", JStr "7"); ("bank", JNum 42 0)] in
  exists a,
    normalizeAccount "0.5" raw = Ret a /\
    Account.bank a = JNum 42 0 /\
    is_string (Account.bank a) = false.
Proof. eexists. repeat split; reflexivity. Qed.

(** An element [null] of the data array makes [normalizeAccount] throw. *)
Lemma normalizeAccount_null (random : string) :
  normalizeAccount random JNull = Throw TypeError.
Proof. reflexivity. Qed.

(** * Loading *)

Lemma sample_normalized (random : nat -> string) :
  map_normalize random 0 getSampleData = Ret sample_accounts.
Proof. reflexivity. Qed.

Lemma sample_accounts_canonical : Forall canonical sample_accounts.
Proof. repeat constructor. Qed.

(** In app.js a failed load does not throw, and the accounts held are the
    fallback table normalised: canonical accounts. *)
Lemma loadData_failure_normalises_fallback (net : response)
  (random : nat -> string) (w : world) :
  load_fails net random ->
  exists w',
    loadData net random w = (Ret sample_accounts, w') /\
    allAccounts w' = sample_accounts /\
    Forall canonical (allAccounts w').
Proof.
  intros Hfail.
  assert (Hdone : forall w0, exists w',
    (showToast "Failed to load accounts. Using sample data." "warning";;
     accounts <- lift (map_normalize random 0 getSampleData);;
     assign_allAccounts accounts) w0 = (Ret sample_accounts, w') /\
    allAccounts w' = sample_accounts /\ Forall canonical (allAccounts w')).
  { intros w0. unfold bind, showToast, lift, assign_allAccounts.
    rewrite sample_normalized.
    destruct (toastContainer w0); eexists; (split; [reflexivity|]);
      simpl; split; auto using sample_accounts_canonical. }
  unfold loadData, try_catch.
  destruct net as [|ok json]; simpl; [apply Hdone|].
  destruct Hfail as [-> | Hjson]; simpl; [apply Hdone|].
  destruct ok; simpl; [|apply Hdone].
  destruct json as [[| | | | | |data|]|]; simpl; try apply Hdone.
  destruct Hjson as (e & He). unfold bind, lift. rewrite He. apply Hdone.
Qed.

(** C9 fails on app_backup.js.  When the fetch is rejected its [loadData]
    holds the fallback table as it is written, not normalised: every record
    lacks the canonical [bank], [title] and [note]; the records it holds
    after a successful load have them. *)
Theorem backup_fallback_not_normalised (random : nat -> string) :
  Backup.loadData Rejected random = getSampleData /\
  Forall (fun a => lacks "bank" a /\ lacks "title" a /\ lacks "note" a)
    (Backup.loadData Rejected random) /\
  Forall (fun a => ~ lacks "bank" a /\ ~ lacks "title" a /\ ~ lacks "note" a)
    (Backup.loadData (Response true (Some (JArr getSampleData))) random).
Proof.
  split; [reflexivity|]. split.
  - repeat constructor.
  - repeat constructor; discriminate.
Qed.

(** * Migration: what happens to the theme and the favorites *)

Lemma holds_same (t f : option string) (w w' : world) :
  localStorage w' = localStorage w -> holds t f w -> holds t f w'.
Proof. unfold holds. by intros ->. Qed.

Lemma holds_version (t f : option string) (w w' : world) (v : string) :
  localStorage w' = <[CONFIG.VERSION_KEY := v]> (localStorage w) ->
  holds t f w -> holds t f w'.
Proof.
  unfold holds. intros -> [Ht Hf]. by rewrite !lookup_insert_ne.
Qed.

Lemma not_preserved (key : string) :
  str_in key [CONFIG.THEME_KEY; CONFIG.FAVORITES_KEY] = false ->
  key <> CONFIG.THEME_KEY /\ key <> CONFIG.FAVORITES_KEY.
Proof.
  unfold str_in. simpl.
  destruct (String.eqb_spec key CONFIG.THEME_KEY),
           (String.eqb_spec key CONFIG.FAVORITES_KEY); simpl; done.
Qed.

(** The fallback on a store that no longer fails: it records the version
    and the two preserved keys hold what they held. *)
Lemma migrate_fallback_frame (t f : option string) (w : world) :
  calm_holding t f w ->
  wp migrate_fallback
     (fun _ w' =>
        localStorage w' !! CONFIG.VERSION_KEY = Some CONFIG.APP_VERSION /\
        holds t f w')
     (fun _ _ => False) w.
Proof.
  intros [Hw Hh]. unfold migrate_fallback.
  apply wp_bind. storage_rule; [intros; lia|]. intros w1 Hs1 H1.
  rewrite (proj1 Hh).
  apply wp_bind. storage_rule; [intros; lia|]. intros w2 Hs2 H2.
  rewrite Hs1, (proj2 Hh).
  apply wp_bind. storage_rule; [intros; lia|]. intros w3 Hs3 H3.
  assert (H : calm_holding t f w3).
  { split; [lia|]. eapply holds_same; [|exact Hh]. congruence. }
  clear - H. apply wp_bind.
  apply wp_mono with (Q := fun _ => calm_holding t f)
                     (E := fun _ _ => False); [| | done].
  { apply wp_forEach; [done|]. clear. intros key w [Hc Hh].
    destruct (_ && _) eqn:Hkey; [|by apply wp_ret].
    apply andb_prop in Hkey as [_ Hkey]. apply negb_true_iff in Hkey.
    apply not_preserved in Hkey as [Hk1 Hk2].
    storage_rule; [intros; lia|]. intros w' Hs Hc'. split; [lia|].
    destruct Hh as [Ht Hf]. unfold holds. rewrite Hs.
    by rewrite !lookup_delete_ne. }
  clear. intros [] w [Hc Hh]. apply wp_bind.
  apply wp_mono with (Q := fun _ => calm_holding t f)
                     (E := fun _ _ => False); [| | done].
  { destruct t as [s|]; [|by apply wp_ret].
    destruct (valid_theme (Some s)); [|by apply wp_ret].
    storage_rule; [intros; lia|]. intros w' Hs Hc'. split; [lia|].
    destruct Hh as [Ht Hf]. unfold holds. rewrite Hs.
    by rewrite lookup_insert_eq, lookup_insert_ne. }
  clear. intros [] w [Hc Hh]. apply wp_bind.
  apply wp_mono with (Q := fun _ => calm_holding t f)
                     (E := fun _ _ => False); [| | done].
  { apply wp_try_catch.
    destruct f as [text|]; [|by apply wp_ret].
    destruct (truthy_item (Some text)); [|by apply wp_ret].
    apply wp_bind. unfold JSON_parse_m.
    destruct (JSON_parse text) as [parsed|].
    - apply wp_ret. storage_rule; [intros; lia|].
      intros w' Hs Hc'. split; [lia|].
      destruct Hh as [Ht Hf]. unfold holds. rewrite Hs.
      by rewrite lookup_insert_eq, lookup_insert_ne.
    - apply wp_throw. by apply wp_ret. }
  clear. intros [] w [Hc Hh]. apply wp_bind.
  storage_rule; [intros; lia|]. intros w1 Hs1 _.
  apply wp_showToast. intros w2 Hs2 _. split.
  - rewrite Hs2, Hs1. apply lookup_insert_eq.
  - eapply holds_version; [rewrite Hs2; exact Hs1 | done].
Qed.

(** The [try] block on a version that is neither current nor below
    ["2.0"]: it finishes with the version recorded, or fails on the only
    failure of the schedule; either way the two keys hold what they
    held. *)
Lemma migrate_body_newer (t f : option string) (v : string) (w : world) :
  localStorage w !! CONFIG.VERSION_KEY = Some v ->
  v <> CONFIG.APP_VERSION ->
  String.ltb v "2.0" = false ->
  fault_count w <= 1 ->
  holds t f w ->
  wp migrate_body
     (fun _ w' =>
        localStorage w' !! CONFIG.VERSION_KEY = Some CONFIG.APP_VERSION /\
        holds t f w')
     (fun _ w' => calm_holding t f w') w.
Proof.
  intros Hv Hne Hlt Hw Hh.
  assert (Htruthy : truthy_item (Some v) = true).
  { destruct v; [done | reflexivity]. }
  unfold migrate_body. apply wp_bind.
  storage_rule.
  { intros w' Hs Hc. split; [lia | by eapply holds_same]. }
  intros w1 Hs1 Hc1. rewrite Hv, Htruthy. simpl.
  destruct (String.eqb_spec v CONFIG.APP_VERSION) as [|_]; [done|].
  apply wp_bind. storage_rule.
  { intros w' Hs Hc. split; [lia|]. eapply holds_same; [|exact Hh]. congruence. }
  intros w2 Hs2 Hc2. apply wp_bind. storage_rule.
  { intros w' Hs Hc. split; [lia|]. eapply holds_same; [|exact Hh]. congruence. }
  intros w3 Hs3 Hc3. apply wp_bind. rewrite Hlt. apply wp_ret.
  apply wp_bind. storage_rule.
  { intros w' Hs Hc. split; [lia|]. eapply holds_same; [|exact Hh]. congruence. }
  intros w4 Hs4 Hc4. apply wp_showToast. intros w5 Hs5 _. split.
  - rewrite Hs5, Hs4. apply lookup_insert_eq.
  - eapply holds_version; [rewrite Hs5; exact Hs4|].
    eapply holds_same; [|exact Hh]. congruence.
Qed.

(** C10.  When the stored version differs from the current one and is not
    below ["2.0"], the migration returns normally with the current version
    written, and the theme and favorites keys hold what they held; this on
    every run with at most one failing storage access.  When no access
    fails the version key is the only thing written: the store afterwards
    is the old store with the version key set. *)
Theorem newer_version_only_writes_version (w : world) (v : string) :
  localStorage w !! CONFIG.VERSION_KEY = Some v ->
  v <> CONFIG.APP_VERSION ->
  String.ltb v "2.0" = false ->
  fault_count w <= 1 ->
  exists w',
    migrateLocalStorageData w = (Ret tt, w') /\
    localStorage w' !! CONFIG.VERSION_KEY = Some CONFIG.APP_VERSION /\
    localStorage w' !! CONFIG.THEME_KEY = localStorage w !! CONFIG.THEME_KEY /\
    localStorage w' !! CONFIG.FAVORITES_KEY
    = localStorage w !! CONFIG.FAVORITES_KEY /\
    (fault_count w = 0 ->
     localStorage w'
     = <[CONFIG.VERSION_KEY := CONFIG.APP_VERSION]> (localStorage w)).
Proof.
  intros Hv Hne Hlt Hw.
  set (t := localStorage w !! CONFIG.THEME_KEY).
  set (f := localStorage w !! CONFIG.FAVORITES_KEY).
  destruct (wp_returns migrateLocalStorageData
              (fun _ w' =>
                 localStorage w' !! CONFIG.VERSION_KEY = Some CONFIG.APP_VERSION
                 /\ holds t f w') w)
    as ([] & w' & Hrun & Hver & Ht & Hf).
  - unfold migrateLocalStorageData. apply wp_try_catch.
    eapply wp_mono; [by apply (migrate_body_newer t f v) | done |].
    intros e w' Hw'. by apply migrate_fallback_frame.
  - exists w'. repeat (split; [done|]). intros Hcalm.
    destruct (newer_version_store w v Hv Hne Hlt Hcalm) as (w'' & Hrun' & Hs).
    congruence.
Qed.

Lemma newer_version_only_writes_version_witness :
  localStorage (start store_v3 [false; true]) !! CONFIG.VERSION_KEY = Some "3.0" /\
  "3.0" <> CONFIG.APP_VERSION /\
  String.ltb "3.0" "2.0" = false /\
  fault_count (start store_v3 [false; true]) <= 1 /\
  exists w',
    migrateLocalStorageData (start store_v3 [false; true]) = (Ret tt, w') /\
    localStorage w' !! CONFIG.VERSION_KEY = Some CONFIG.APP_VERSION /\
    localStorage w' !! CONFIG.THEME_KEY
    = localStorage (start store_v3 [false; true]) !! CONFIG.THEME_KEY /\
    localStorage w' !! CONFIG.FAVORITES_KEY
    = localStorage (start store_v3 [false; true]) !! CONFIG.FAVORITES_KEY /\
    (fault_count (start store_v3 [false; true]) = 0 ->
     localStorage w'
     = <[CONFIG.VERSION_KEY := CONFIG.APP_VERSION]>
         (localStorage (start store_v3 [false; true]))).
Proof.
  split; [reflexivity|]. split; [discriminate|]. split; [reflexivity|].
  split; [vm_compute; lia|].
  apply (newer_version_only_writes_version (start store_v3 [false; true]) "3.0");
    [reflexivity | discriminate | reflexivity | vm_compute; lia].
Defined.

(** The same store when nothing fails: only the version changes. *)
Example newer_version_run :
  localStorage (snd (migrateLocalStorageData (start store_v3 [])))
  = <[CONFIG.VERSION_KEY := "2.0"]> store_v3.
Proof.
  destruct (newer_version_store (start store_v3 []) "3.0")
    as (w' & Hrun & Hs); [done | done | done | done |].
  rewrite Hrun. exact Hs.
Qed.

(** * Masking *)

Lemma slice_first {A} (s : list A) (n : nat) :
  slice s 0 (Some (Z.of_nat n)) = take n s.
Proof.
  unfold slice.
  destruct (Z.ltb_spec 0 0) as [|_]; [lia|].
  destruct (Z.ltb_spec (Z.of_nat n) 0) as [|_]; [lia|].
  replace (Z.to_nat (Z.min 0 (Z.of_nat (length s)))) with 0 by lia.
  replace (Z.to_nat (Z.min (Z.of_nat n) (Z.of_nat (length s))
                     - Z.min 0 (Z.of_nat (length s))))
    with (min n (length s)) by lia.
  rewrite drop_0.
  destruct (decide (n <= length s)) as [Hle|Hgt].
  - by rewrite Nat.min_l.
  - rewrite Nat.min_r, !take_ge; [done | lia | lia | lia].
Qed.

Lemma slice_last {A} (s : list A) (n : nat) :
  0 < n -> n <= length s ->
  slice s (- Z.of_nat n) None = drop (length s - n) s.
Proof.
  intros Hn Hle. unfold slice.
  destruct (Z.ltb_spec (- Z.of_nat n) 0) as [_|]; [|lia].
  replace (Z.to_nat (Z.max (Z.of_nat (length s) + - Z.of_nat n) 0))
    with (length s - n) by lia.
  apply take_ge. rewrite length_drop. lia.
Qed.

(** What the two functions return on a string of more than eight code
    units. *)
Lemma maskAccountNumber_long (number : list N) :
  8 < length number ->
  maskAccountNumber number
  = (take 4 number ++ replicate (min (length number - 8) 12) bullet
     ++ drop (length number - 4) number)%list.
Proof.
  intros Hlen. unfold maskAccountNumber.
  destruct (Nat.eqb_spec (length number) 0); [lia|].
  destruct (Nat.leb_spec (length number) 8); [lia|]. cbn [orb].
  change (slice number 0 (Some 4%Z)) with (slice number 0 (Some (Z.of_nat 4))).
  change (slice number (-4) None) with (slice number (- Z.of_nat 4) None).
  rewrite (slice_first number 4), (slice_last number 4) by lia.
  do 3 f_equal. lia.
Qed.

Lemma maskIBAN_long (iban : list N) :
  8 < length iban ->
  maskIBAN iban
  = (take 4 iban ++ [blank] ++ replicate (min (length iban - 8) 16) bullet
     ++ [blank] ++ drop (length iban - 4) iban)%list.
Proof.
  intros Hlen. unfold maskIBAN.
  destruct (Nat.eqb_spec (length iban) 0); [lia|].
  destruct (Nat.leb_spec (length iban) 8); [lia|]. cbn [orb].
  change (slice iban 0 (Some 4%Z)) with (slice iban 0 (Some (Z.of_nat 4))).
  change (slice iban (-4) None) with (slice iban (- Z.of_nat 4) None).
  rewrite (slice_first iban 4), (slice_last iban 4) by lia.
  do 4 f_equal. lia.
Qed.

Lemma mask_short (number : list N) :
  length number <= 8 ->
  maskAccountNumber number = number /\ maskIBAN number = number.
Proof.
  intros Hlen. unfold maskAccountNumber, maskIBAN.
  destruct (Nat.leb_spec (length number) 8); [|lia].
  by rewrite orb_true_r.
Qed.

(** X1.  The masked account number has [min (length number) 20] code
    units, and the masked IBAN has the length of the IBAN when that is at
    most eight and [min (length iban + 2) 26] otherwise: however long the
    input, the display is at most 20, respectively 26, code units. *)
Theorem mask_length (s : list N) :
  length (maskAccountNumber s) = min (length s) 20 /\
  length (maskIBAN s)
  = if (length s <=? 8)%nat then length s else min (length s + 2) 26.
Proof.
  destruct (Nat.leb_spec (length s) 8) as [Hle|Hgt].
  - destruct (mask_short s Hle) as [-> ->]. lia.
  - rewrite maskAccountNumber_long, maskIBAN_long by done.
    split; repeat (rewrite ?length_app, ?length_replicate, ?length_take,
                     ?length_drop; cbn [length]); lia.
Qed.

(** A string is determined by its length, its first four and its last four
    code units when it has at most eight. *)
Lemma short_determined (a b : list N) :
  length a = length b ->
  length a <= 8 ->
  take 4 a = take 4 b ->
  drop (length a - 4) a = drop (length b - 4) b ->
  a = b.
Proof.
  intros Hlen Hshort Hfirst Hlast.
  transitivity (take 4 a ++ drop 4 a)%list; [symmetry; apply take_drop|].
  transitivity (take 4 b ++ drop 4 b)%list; [|apply take_drop].
  f_equal; [done|].
  assert (Hsuffix : forall s : list N, length s <= 8 ->
            drop 4 s = drop (4 - (length s - 4)) (drop (length s - 4) s)).
  { intros s Hs. rewrite drop_drop. f_equal. lia. }
  rewrite (Hsuffix a), (Hsuffix b) by lia. by rewrite Hlast, Hlen.
Qed.

(** X2.  The masks show nothing of a string beyond its length, its first
    four and its last four code units: two strings that agree on these
    three have the same masked account number and the same masked IBAN. *)
Theorem mask_hides_the_middle (a b : list N) :
  length a = length b ->
  take 4 a = take 4 b ->
  drop (length a - 4) a = drop (length b - 4) b ->
  maskAccountNumber a = maskAccountNumber b /\ maskIBAN a = maskIBAN b.
Proof.
  intros Hlen Hfirst Hlast.
  destruct (Nat.leb_spec (length a) 8) as [Hle|Hgt].
  - by rewrite (short_determined a b).
  - rewrite !maskAccountNumber_long, !maskIBAN_long by lia.
    by rewrite Hfirst, Hlast, Hlen.
Qed.

Lemma mask_hides_the_middle_witness :
  length (units_of "4587123900456712") = length (units_of "4587999999996712") /\
  take 4 (units_of "4587123900456712") = take 4 (units_of "4587999999996712") /\
  drop (length (units_of "4587123900456712") - 4) (units_of "4587123900456712")
  = drop (length (units_of "4587999999996712") - 4)
      (units_of "4587999999996712") /\
  maskAccountNumber (units_of "4587123900456712")
  = maskAccountNumber (units_of "4587999999996712") /\
  maskIBAN (units_of "4587123900456712")
  = maskIBAN (units_of "4587999999996712").
Proof.
  split; [reflexivity|]. split; [reflexivity|]. split; [reflexivity|].
  apply (mask_hides_the_middle (units_of "4587123900456712")
           (units_of "4587999999996712")); reflexivity.
Defined.

(** * Theme toggle *)

(** One toggle: it returns whatever the store does, the new theme is
    ["dark"] when the theme was ["light"] and ["light"] otherwise, and the
    store holds the new theme unless the write failed. *)
Lemma toggleTheme_step (w : world) :
  exists w',
    toggleTheme w = (Ret tt, w') /\
    currentTheme w'
    = (if String.eqb (currentTheme w) "light" then "dark" else "light") /\
    dataTheme w' = Some (currentTheme w') /\
    faults w' = tail (faults w) /\
    prefersDark w' = prefersDark w /\
    localStorage w' !! CONFIG.THEME_KEY
    = (if head (faults w) is Some true
       then localStorage w !! CONFIG.THEME_KEY
       else Some (currentTheme w')).
Proof.
  unfold toggleTheme, bind, applyTheme, try_catch, setItem, bind,
    storage_access, showToast.
  destruct (faults w) as [|[] fs] eqn:Hf; simpl; rewrite ?Hf; simpl;
    destruct (toastContainer w); simpl;
    eexists; (split; [reflexivity|]); simpl; rewrite ?Hf;
    repeat split; try done; by rewrite lookup_insert_eq.
Qed.

(** X3.  [toggleTheme] never throws, even when the store refuses the
    write.  It always changes the theme, the new theme is one of the two
    literals, and a second toggle brings back the original theme when
    that was one of the two literals. *)
Theorem toggleTheme_flips (w : world) :
  exists w1 w2,
    toggleTheme w = (Ret tt, w1) /\
    toggleTheme w1 = (Ret tt, w2) /\
    theme_literal (currentTheme w1) /\
    currentTheme w1 <> currentTheme w /\
    (theme_literal (currentTheme w) -> currentTheme w2 = currentTheme w).
Proof.
  destruct (toggleTheme_step w) as (w1 & Hrun1 & Ht1 & _).
  destruct (toggleTheme_step w1) as (w2 & Hrun2 & Ht2 & _).
  exists w1, w2. split; [done|]. split; [done|].
  rewrite Ht2, Ht1. unfold theme_literal.
  destruct (String.eqb_spec (currentTheme w) "light") as [->|Hne]; simpl.
  - repeat split; auto; discriminate.
  - repeat split; auto; try done. intros [? | ->]; [done | reflexivity].
Qed.

(** X4.  The choice made with [toggleTheme] survives a reload: when the
    write and the later read of the theme key succeed, [initializeTheme]
    after a reload puts in force the theme the toggle chose, whatever the
    configured default and the system preference. *)
Theorem toggled_theme_survives_reload (DEFAULT_THEME : string) (w : world) :
  fault_count w = 0 ->
  exists w1 w2,
    toggleTheme w = (Ret tt, w1) /\
    initializeTheme DEFAULT_THEME (reload w1) = (Ret tt, w2) /\
    currentTheme w2 = currentTheme w1.
Proof.
  intros Hcalm.
  destruct (toggleTheme_step w) as (w1 & Hrun1 & Ht1 & _ & Hf1 & _ & Hs1).
  exists w1.
  assert (Hhead : head (faults w) <> Some true).
  { unfold fault_count in Hcalm. by destruct (faults w) as [|[] ?]. }
  assert (Hstored : localStorage w1 !! CONFIG.THEME_KEY = Some (currentTheme w1)).
  { rewrite Hs1. by destruct (head (faults w)) as [[]|]. }
  assert (Hhead1 : head (faults (reload w1)) <> Some true).
  { simpl. rewrite Hf1. unfold fault_count in Hcalm.
    destruct (faults w) as [|[] [|[] ?]]; simpl in *; done. }
  assert (Hne : String.eqb (currentTheme w1) "" = false).
  { rewrite Ht1. by destruct (String.eqb (currentTheme w) "light"). }
  clear - Hrun1 Hstored Hhead1 Hne.
  unfold initializeTheme, try_catch, bind, getItem, bind, storage_access.
  destruct (faults (reload w1)) as [|[] fs] eqn:Hf; simpl in *;
    rewrite ?Hf in *; simpl in *; try done;
    rewrite Hstored; simpl; rewrite Hne; simpl;
    eexists; (split; [done|]); (split; [reflexivity|]); done.
Qed.

Lemma toggled_theme_survives_reload_witness :
  fault_count (start store_blue []) = 0 /\
  exists w1 w2,
    toggleTheme (start store_blue []) = (Ret tt, w1) /\
    initializeTheme "dark" (reload w1) = (Ret tt, w2) /\
    currentTheme w2 = currentTheme w1.
Proof.
  split; [reflexivity|].
  apply (toggled_theme_survives_reload "dark" (start store_blue [])).
  reflexivity.
Defined.

(** * Favorites: what a toggle does *)

Lemma str_in_In (x : string) (xs : list string) :
  str_in x xs = true <-> In x xs.
Proof.
  unfold str_in. rewrite existsb_exists. split.
  - intros (y & Hy & Heq). by apply String.eqb_eq in Heq as ->.
  - intros Hx. exists x. split; [done | apply String.eqb_refl].
Qed.










(** Two toggles of the first favorite leave it last. *)
Example toggle_twice_moves_last :
  favorites (snd (toggleFavorite (JStr "1")
                    (snd (toggleFavorite (JStr "1") world_two_favorites))))
  = JArr [JStr "2"; JStr "1"].
Proof. reflexivity. Qed.

(** With a repeated ID, as [loadFavorites] can yield, one toggle does not
    take the ID out of the favorites. *)
Example toggle_with_repetition :
  let w := set_favorites (JArr [JStr "1"; JStr "1"]) world_two_favorites in
  favorites (snd (toggleFavorite (JStr "1") w)) = JArr [JStr "1"].
Proof. reflexivity. Qed.

(** * The favorites strip *)

Lemma filter_favorites_texts (ids : list string) (accounts : list Account.t) :
  Forall canonical accounts ->
  filter_favorites (JArr (map JStr ids)) accounts
  = Ret (List.filter (favorite_in ids) accounts).
Proof.
  induction 1 as [|a accounts Ha _ IH]; [done|].
  cbn [filter_favorites List.filter]. rewrite IH.
  unfold canonical in Ha.
  destruct (Account.id a) as [| | | |i| | |] eqn:Hid; try done.
  assert (Hfa : favorite_in ids a = str_in i ids).
  { unfold favorite_in. by rewrite Hid. }
  rewrite Hfa. destruct (isFavorite_texts ids i) as (b & -> & Hb).
  cbn [obind]. destruct b, (str_in i ids) eqn:Hin; try done.
  - assert (In i ids) by (by apply Hb). apply str_in_In in H. congruence.
  - apply str_in_In, Hb in Hin. done.
Qed.

(** X7.  On canonical accounts and favorites that are a sequence of string
    IDs, the favorites strip holds the first [MAX_FAVORITES_DISPLAY] (three)
    favorite accounts in the order of the account list: at most three
    accounts, all of them favorites, in account order. *)
Theorem favoriteAccounts_first_three (w : world) (ids : list string) :
  Forall canonical (allAccounts w) ->
  favorites w = JArr (map JStr ids) ->
  exists shown,
    favoriteAccounts w = Ret shown /\
    shown = take 3 (List.filter (favorite_in ids) (allAccounts w)) /\
    length shown <= 3 /\
    sublist shown (allAccounts w) /\
    Forall (fun a => favorite_in ids a = true) shown.
Proof.
  intros Hcan Hfav. unfold favoriteAccounts.
  rewrite Hfav, filter_favorites_texts by done. cbn [obind].
  rewrite slice_first. eexists. split; [reflexivity|].
  split; [reflexivity|]. split; [rewrite length_take; unfold MAX_FAVORITES_DISPLAY; lia|].
  split.
  - etrans; [apply sublist_take|]. clear.
    induction (allAccounts w) as [|a l IH]; simpl; [done|].
    destruct (favorite_in ids a); by constructor.
  - apply Forall_take. apply Forall_forall. intros a Ha.
    apply list_elem_of_In, filter_In in Ha. tauto.
Qed.

Lemma favoriteAccounts_first_three_witness :
  Forall canonical (allAccounts world_two_favorites) /\
  favorites world_two_favorites = JArr (map JStr ["1"; "2"]) /\
  exists shown,
    favoriteAccounts world_two_favorites = Ret shown /\
    shown = take 3 (List.filter (favorite_in ["1"; "2"])
                      (allAccounts world_two_favorites)) /\
    length shown <= 3 /\
    sublist shown (allAccounts world_two_favorites) /\
    Forall (fun a => favorite_in ["1"; "2"] a = true) shown.
Proof.
  assert (Hcan : Forall canonical (allAccounts world_two_favorites))
    by (repeat constructor).
  split; [exact Hcan|]. split; [reflexivity|].
  exact (favoriteAccounts_first_three world_two_favorites ["1"; "2"]
           Hcan eq_refl).
Defined.

(** X8.  The favorites strip depends on which IDs are favorites and not on
    the order in which they became favorites: two worlds with the same
    accounts and the same favorite IDs show the same strip. *)
Theorem favoriteAccounts_ignores_order (w1 w2 : world) (ids1 ids2 : list string) :
  Forall canonical (allAccounts w1) ->
  allAccounts w2 = allAccounts w1 ->
  favorites w1 = JArr (map JStr ids1) ->
  favorites w2 = JArr (map JStr ids2) ->
  (forall i, In i ids1 <-> In i ids2) ->
  favoriteAccounts w1 = favoriteAccounts w2.
Proof.
  intros Hcan Hacc Hf1 Hf2 Hsame. unfold favoriteAccounts.
  rewrite Hacc, Hf1, Hf2, !filter_favorites_texts by done.
  do 2 f_equal. apply filter_ext. intros a. unfold favorite_in.
  destruct (Account.id a); try done.
  apply eq_true_iff_eq. rewrite !str_in_In. apply Hsame.
Qed.

Lemma favoriteAccounts_ignores_order_witness :
  Forall canonical (allAccounts world_two_favorites) /\
  allAccounts world_two_favorites_swapped = allAccounts world_two_favorites /\
  favorites world_two_favorites = JArr (map JStr ["1"; "2"]) /\
  favorites world_two_favorites_swapped = JArr (map JStr ["2"; "1"]) /\
  (forall i, In i ["1"; "2"] <-> In i ["2"; "1"]) /\
  favoriteAccounts world_two_favorites
  = favoriteAccounts world_two_favorites_swapped.
Proof.
  assert (Hcan : Forall canonical (allAccounts world_two_favorites))
    by (repeat constructor).
  assert (Hsame : forall i, In i ["1"; "2"] <-> In i ["2"; "1"])
    by (intros i; simpl; tauto).
  split; [exact Hcan|]. split; [reflexivity|]. split; [reflexivity|].
  split; [reflexivity|]. split; [exact Hsame|].
  exact (favoriteAccounts_ignores_order world_two_favorites
           world_two_favorites_swapped ["1"; "2"] ["2"; "1"]
           Hcan eq_refl eq_refl eq_refl Hsame).
Defined.

(** * Favorites: saving and loading *)

Lemma append_assoc (a b c : string) : (a ++ b) ++ c = a ++ (b ++ c).
Proof.
  induction a as [|x a IH]; [done|]. by rewrite !append_cons, IH.
Qed.

(** The lexer reads back what [quote_char] writes. *)
Lemma lex_quote_char (c : ascii) (w : list ascii) (acc : list token)
  (rest : string) :
  lex (LString w false) (quote_char c ++ rest) acc
  = lex (LString (c :: w) false) rest acc.
Proof.
  destruct c as [[] [] [] [] [] [] [] []]; reflexivity.
Qed.

Lemma lex_quote_chars (s : string) (w : list ascii) (acc : list token)
  (rest : string) :
  lex (LString w false) (quote_chars s ++ rest) acc
  = lex (LString (rev (list_ascii_of_string s) ++ w)%list false) rest acc.
Proof.
  revert w. induction s as [|c s IH]; intros w; [done|].
  cbn [quote_chars]. rewrite append_assoc, lex_quote_char, IH.
  cbn [list_ascii_of_string rev]. by rewrite <- app_assoc.
Qed.

Lemma lex_quote (s : string) (acc : list token) (rest : string) :
  lex LIdle (quote s ++ rest) acc = lex LIdle rest (TString s :: acc).
Proof.
  unfold quote. rewrite !append_assoc.
  change (lex LIdle (dquote ++ quote_chars s ++ dquote ++ rest) acc)
    with (lex (LString [] false) (quote_chars s ++ dquote ++ rest) acc).
  rewrite lex_quote_chars, app_nil_r.
  change (lex (LString (rev (list_ascii_of_string s)) false) (dquote ++ rest) acc)
    with (lex LIdle rest
            (TString (string_of_list_ascii
                        (rev (rev (list_ascii_of_string s)))) :: acc)).
  by rewrite rev_involutive, string_of_list_ascii_of_string.
Qed.

Lemma lex_elements (x : string) (others : list string) (acc : list token)
  (rest : string) :
  lex LIdle (String.concat "," (map quote (x :: others)) ++ rest) acc
  = lex LIdle rest
      (rev (TString x :: flat_map (fun y => [TComma; TString y]) others)
       ++ acc)%list.
Proof.
  revert x acc. induction others as [|y others IH]; intros x acc.
  - cbn [map String.concat]. by rewrite lex_quote.
  - change (String.concat "," (map quote (x :: y :: others)))
      with (quote x ++ "," ++ String.concat "," (map quote (y :: others))).
    rewrite !append_assoc, lex_quote.
    change (lex LIdle ("," ++ String.concat "," (map quote (y :: others)) ++ rest)
              (TString x :: acc))
      with (lex LIdle (String.concat "," (map quote (y :: others)) ++ rest)
              (TComma :: TString x :: acc)).
    rewrite IH. f_equal. cbn [flat_map rev app].
    by rewrite <- !app_assoc.
Qed.

Lemma lex_string_array (ids : list string) :
  lex LIdle ("[" ++ String.concat "," (map quote ids) ++ "]") []
  = Some (string_array_tokens ids).
Proof.
  destruct ids as [|x others]; [reflexivity|].
  change (lex LIdle ("[" ++ String.concat "," (map quote (x :: others)) ++ "]") [])
    with (lex LIdle (String.concat "," (map quote (x :: others)) ++ "]")
            [TLBracket]).
  rewrite lex_elements.
  change (lex LIdle "]" ?acc) with (Some (rev (TRBracket :: acc))).
  unfold string_array_tokens. f_equal.
  change (rev (TRBracket :: ?l)) with (rev l ++ [TRBracket])%list.
  by rewrite rev_app_distr, rev_involutive.
Qed.

Lemma parse_string_array_rest (others : list string) (acc : list jsval) :
  parse_tokens [FArr acc] MAfter
    (flat_map (fun y => [TComma; TString y]) others ++ [TRBracket])
  = Some (JArr (rev acc ++ map JStr others)).
Proof.
  revert acc. induction others as [|y others IH]; intros acc.
  - simpl. by rewrite app_nil_r.
  - cbn [flat_map app parse_tokens parse_step push_value]. rewrite IH.
    cbn [rev map]. by rewrite <- app_assoc.
Qed.

Lemma parse_string_array (ids : list string) :
  parse_tokens [] (MValue false) (string_array_tokens ids)
  = Some (JArr (map JStr ids)).
Proof.
  destruct ids as [|x others]; [reflexivity|].
  unfold string_array_tokens.
  cbn [parse_tokens parse_step push_value].
  by rewrite parse_string_array_rest.
Qed.

(** [JSON.parse] reads back what [JSON.stringify] writes for an array of
    strings. *)
Lemma JSON_parse_stringify_texts (ids : list string) :
  exists text,
    JSON_stringify (JArr (map JStr ids)) = Ret text /\
    truthy_item (Some text) = true /\
    JSON_parse text = Some (JArr (map JStr ids)).
Proof.
  eexists. split; [apply JSON_stringify_texts|]. split; [reflexivity|].
  unfold JSON_parse. by rewrite lex_string_array, parse_string_array.
Qed.


(** X9.  Favorites that are a sequence of string IDs survive a reload:
    when no storage access fails, [loadFavorites] after [saveFavorites] and
    a reload yields the same sequence, whatever characters the IDs hold
    (quotes, backslashes and control characters included). *)
Theorem favorites_survive_reload (w : world) (ids : list string) :
  favorites w = JArr (map JStr ids) ->
  fault_count w = 0 ->
  exists w1 w2,
    saveFavorites w = (Ret tt, w1) /\
    loadFavorites (reload w1) = (Ret tt, w2) /\
    favorites w2 = JArr (map JStr ids).
Proof.
  intros Hfav Hcalm.
  destruct (JSON_parse_stringify_texts ids) as (text & Hs & Ht & Hp).
  assert (Hload : forall m fs,
    count_faults fs = 0 ->
    exists w2,
      loadFavorites
        (reload (set_localStorage (<[CONFIG.FAVORITES_KEY := text]> m)
                   (set_faults fs w))) = (Ret tt, w2) /\
      favorites w2 = JArr (map JStr ids)).
  { intros m fs Hfs.
    unfold loadFavorites, try_catch, bind, getItem, bind, storage_access.
    destruct fs as [|[] fs]; simpl in *; try done;
      rewrite lookup_insert_eq; simpl in Ht; simpl; rewrite Ht;
      unfold JSON_parse_m; rewrite Hp; eexists; split; reflexivity. }
  unfold saveFavorites, try_catch, bind, lift, setItem, bind, storage_access.
  rewrite Hfav, Hs. unfold fault_count in Hcalm.
  destruct (faults w) as [|[] fs] eqn:Hf; simpl in *; try done.
  - destruct (Hload (localStorage w) []) as (w2 & Hrun & Hres); [done|].
    eexists _, w2. split; [reflexivity|]. split; [|done].
    rewrite <- Hrun. reflexivity.
  - destruct (Hload (localStorage w) fs) as (w2 & Hrun & Hres); [done|].
    eexists _, w2. split; [reflexivity|]. split; [|done].
    rewrite <- Hrun. reflexivity.
Qed.

Lemma favorites_survive_reload_witness :
  favorites world_awkward_ids
  = JArr (map JStr [ "a" ++ dquote ++ "b"; "c\d";
                     String (ascii_of_N 10) "e" ]) /\
  fault_count world_awkward_ids = 0 /\
  exists w1 w2,
    saveFavorites world_awkward_ids = (Ret tt, w1) /\
    loadFavorites (reload w1) = (Ret tt, w2) /\
    favorites w2
    = JArr (map JStr [ "a" ++ dquote ++ "b"; "c\d";
                       String (ascii_of_N 10) "e" ]).
Proof.
  split; [reflexivity|]. split; [reflexivity|].
  apply (favorites_survive_reload world_awkward_ids
           [ "a" ++ dquote ++ "b"; "c\d"; String (ascii_of_N 10) "e" ]);
    reflexivity.
Defined.

(** * Filtering: narrowing and staying in step *)

Lemma contains_piece (hay pre text post : string) :
  contains_ignoring_case hay (pre ++ text ++ post) ->
  contains_ignoring_case hay text.
Proof.
  intros (p & mid & q & -> & Hmid).
  rewrite !toLowerCase_app in Hmid.
  destruct (toLowerCase_split _ _ _ Hmid) as (m1 & m23 & -> & _ & H23).
  destruct (toLowerCase_split _ _ _ H23) as (m2 & m3 & -> & H2 & _).
  exists (p ++ m1), m2, (m3 ++ q). split; [|done].
  by rewrite !append_assoc.
Qed.

Lemma narrower_visible (f' f : Filters.t) (ids : list string) (a : Account.t) :
  narrower f' f -> Visible f' ids a -> Visible f ids a.
Proof.
  intros ((pre & post & Hs) & Hc & Hp & Hf) (Vs & Vc & Vp & Vf).
  repeat split.
  - destruct Vs as [Hempty | (s & Hin & Hcontains)].
    + left. rewrite Hempty in Hs.
      destruct pre; [|done]. destruct (Filters.search f); [done|].
      rewrite append_empty, append_cons in Hs. done.
    + right. exists s. split; [done|]. rewrite Hs in Hcontains.
      by eapply contains_piece.
  - destruct Hc as [? | Hc]; [by left|].
    destruct Vc as [Vc | Vc]; [|right; congruence].
    left. congruence.
  - destruct Hp as [? | Hp]; [by left|].
    destruct Vp as [Vp | Vp]; [|right; congruence].
    left. congruence.
  - intros Hon. by apply Vf, Hf.
Qed.

Lemma filter_accounts_narrower (f' f : Filters.t) (ids : list string)
  (accounts : list Account.t) :
  Forall canonical accounts ->
  narrower f' f ->
  exists kept kept',
    filter_accounts f (JArr (map JStr ids)) accounts = Ret kept /\
    filter_accounts f' (JArr (map JStr ids)) accounts = Ret kept' /\
    sublist kept' kept.
Proof.
  intros Hcan Hnarrow.
  induction Hcan as [|a accounts Ha _ (kept & kept' & IH & IH' & Hsub)].
  - exists [], []. by repeat split.
  - cbn [filter_accounts].
    destruct (passes_canonical f ids a Ha) as (b & -> & Hb).
    destruct (passes_canonical f' ids a Ha) as (b' & -> & Hb').
    rewrite IH, IH'. cbn [obind]. eexists _, _.
    split; [reflexivity|]. split; [reflexivity|].
    destruct b', b.
    + by apply sublist_skip.
    + assert (Hv : Visible f' ids a) by by apply Hb'.
      apply (narrower_visible f' f), Hb in Hv; done.
    + by apply sublist_cons.
    + done.
Qed.

Lemma applyFilters_run (w : world) (kept : list Account.t) :
  filter_accounts (currentFilters w) (favorites w) (allAccounts w) = Ret kept ->
  applyFilters w = (Ret tt, set_filteredAccounts kept w).
Proof. intros H. unfold applyFilters. by rewrite H. Qed.

(** X10.  Narrowing the criteria never adds an account: on canonical
    accounts and favorites that are a sequence of string IDs, when the new
    criteria ask for at least what the old ones asked for (more characters
    typed around the search text, a currency or purpose chosen where all
    were shown, favorites-only switched on), the list [applyFilters]
    produces is a sublist of the one it produced before. *)
Theorem applyFilters_narrowing (w : world) (ids : list string)
  (f f' : Filters.t) :
  Forall canonical (allAccounts w) ->
  favorites w = JArr (map JStr ids) ->
  narrower f' f ->
  exists w1 w2,
    applyFilters (set_currentFilters f w) = (Ret tt, w1) /\
    applyFilters (set_currentFilters f' w1) = (Ret tt, w2) /\
    sublist (filteredAccounts w2) (filteredAccounts w1).
Proof.
  intros Hcan Hfav Hnarrow.
  destruct (filter_accounts_narrower f' f ids _ Hcan Hnarrow)
    as (kept & kept' & Hk & Hk' & Hsub).
  exists (set_filteredAccounts kept (set_currentFilters f w)),
         (set_filteredAccounts kept' (set_currentFilters f' w)).
  split; [|split; [|done]].
  - apply applyFilters_run. cbn. by rewrite Hfav.
  - rewrite (applyFilters_run _ kept'); [done|]. cbn. by rewrite Hfav.
Qed.

Lemma applyFilters_narrowing_witness :
  Forall canonical (allAccounts world_two_favorites) /\
  favorites world_two_favorites = JArr (map JStr ["1"; "2"]) /\
  narrower (Filters.Build "Bank" "PKR" "all" true)
           (Filters.Build "an" "all" "all" false) /\
  exists w1 w2,
    applyFilters (set_currentFilters (Filters.Build "an" "all" "all" false)
                    world_two_favorites) = (Ret tt, w1) /\
    applyFilters (set_currentFilters (Filters.Build "Bank" "PKR" "all" true)
                    w1) = (Ret tt, w2) /\
    sublist (filteredAccounts w2) (filteredAccounts w1).
Proof.
  assert (Hcan : Forall canonical (allAccounts world_two_favorites))
    by (repeat constructor).
  assert (Hnarrow : narrower (Filters.Build "Bank" "PKR" "all" true)
                             (Filters.Build "an" "all" "all" false)).
  { split; [by exists "B", "k"|]. split; [by left|]. split; [by left|]. done. }
  split; [exact Hcan|]. split; [reflexivity|]. split; [exact Hnarrow|].
  exact (applyFilters_narrowing world_two_favorites ["1"; "2"] _ _
           Hcan eq_refl Hnarrow).
Defined.



Lemma passes_ignores_favorites (f : Filters.t) (favs favs' : jsval)
  (a : Account.t) :
  Filters.favoritesOnly f = false -> passes f favs a = passes f favs' a.
Proof. intros H. unfold passes. by rewrite H. Qed.

Lemma filter_accounts_ignores_favorites (f : Filters.t) (favs favs' : jsval)
  (accounts : list Account.t) :
  Filters.favoritesOnly f = false ->
  filter_accounts f favs accounts = filter_accounts f favs' accounts.
Proof.
  intros H. induction accounts as [|a accounts IH]; [done|].
  cbn [filter_accounts]. by rewrite IH, (passes_ignores_favorites f favs favs').
Qed.






(** * Migration: what it leaves in the store *)

Ltac calm_rule := storage_rule; [intros; lia|].

Lemma kept_obsolete_twice (o : option string) :
  kept_obsolete (kept_obsolete o) = kept_obsolete o.
Proof. unfold kept_obsolete. by destruct (truthy_item o) eqn:H; [|rewrite H]. Qed.

(** The clean-up loop of the version-1 rules, over any list of keys. *)
Lemma obsolete_keys_loop (keys : list string) (w : world) :
  fault_count w = 0 ->
  wp (forEach keys (fun key =>
        item <- getItem key ;;
        if truthy_item item then removeItem key else ret tt))
     (fun _ w' =>
        fault_count w' = 0 /\
        forall k, localStorage w' !! k
                  = if str_in k keys then kept_obsolete (localStorage w !! k)
                    else localStorage w !! k)
     (fun _ _ => False) w.
Proof.
  revert w. induction keys as [|x keys IH]; intros w Hw; simpl.
  - by apply wp_ret.
  - apply wp_bind, wp_bind. calm_rule. intros w1 Hs1 Hc1.
    assert (Hstep : forall w2,
      fault_count w2 = 0 ->
      (forall k, localStorage w2 !! k
                 = if String.eqb k x then kept_obsolete (localStorage w !! k)
                   else localStorage w !! k) ->
      wp (forEach keys (fun key =>
            item <- getItem key ;;
            if truthy_item item then removeItem key else ret tt))
         (fun _ w' =>
            fault_count w' = 0 /\
            forall k, localStorage w' !! k
                      = if String.eqb k x || str_in k keys
                        then kept_obsolete (localStorage w !! k)
                        else localStorage w !! k)
         (fun _ _ => False) w2).
    { intros w2 Hc2 Hs2. eapply wp_mono; [by apply IH | | done].
      intros _ w' [Hc' Hs']. split; [done|]. intros k.
      rewrite Hs', !Hs2.
      destruct (String.eqb k x), (str_in k keys); simpl;
        by rewrite ?kept_obsolete_twice. }
    destruct (truthy_item (localStorage w !! x)) eqn:Hx.
    + calm_rule. intros w2 Hs2 Hc2. apply Hstep; [lia|].
      intros k. rewrite Hs2, Hs1.
      destruct (String.eqb_spec k x) as [->|Hne].
      * rewrite lookup_delete_eq. unfold kept_obsolete. by rewrite Hx.
      * by rewrite lookup_delete_ne.
    + apply wp_ret. apply Hstep; [lia|].
      intros k. rewrite Hs1.
      destruct (String.eqb_spec k x) as [->|Hne]; [|done].
      unfold kept_obsolete. by rewrite Hx.
Qed.

(** The version-1 rules on a store that does not fail. *)
Lemma migrate_v1_effect (w : world) :
  fault_count w = 0 ->
  wp (migrate_v1 (localStorage w !! CONFIG.THEME_KEY)
                 (localStorage w !! CONFIG.FAVORITES_KEY))
     (fun _ w' =>
        fault_count w' = 0 /\
        forall k, localStorage w' !! k = after_v1_rules (localStorage w) k)
     (fun _ _ => False) w.
Proof.
  intros Hw. unfold migrate_v1.
  set (t := localStorage w !! CONFIG.THEME_KEY).
  set (f := localStorage w !! CONFIG.FAVORITES_KEY).
  apply wp_bind.
  apply wp_mono with
    (Q := fun _ w1 =>
       fault_count w1 = 0 /\
       forall k, localStorage w1 !! k
                 = if String.eqb k CONFIG.THEME_KEY then kept_theme t
                   else localStorage w !! k)
    (E := fun _ _ => False); [| | done].
  { unfold kept_theme. destruct (valid_theme t) eqn:Ht.
    - apply wp_ret. split; [done|]. intros k.
      by destruct (String.eqb_spec k CONFIG.THEME_KEY) as [->|].
    - calm_rule. intros w1 Hs1 Hc1. split; [lia|]. intros k. rewrite Hs1.
      destruct (String.eqb_spec k CONFIG.THEME_KEY) as [->|].
      + apply lookup_delete_eq.
      + by rewrite lookup_delete_ne. }
  intros _ w1 [Hc1 Hs1]. apply wp_bind.
  apply wp_mono with
    (Q := fun _ w2 =>
       fault_count w2 = 0 /\
       forall k, localStorage w2 !! k
                 = if String.eqb k CONFIG.FAVORITES_KEY then kept_favorites f
                   else localStorage w1 !! k)
    (E := fun _ _ => False); [| | done].
  { assert (Hkeep : kept_favorites f = f ->
      fault_count w1 = 0 /\
      forall k, localStorage w1 !! k
                = if String.eqb k CONFIG.FAVORITES_KEY then kept_favorites f
                  else localStorage w1 !! k).
    { intros Hf. split; [done|]. intros k.
      destruct (String.eqb_spec k CONFIG.FAVORITES_KEY) as [->|]; [|done].
      by rewrite Hf, Hs1. }
    assert (Hdrop : kept_favorites f = None ->
      wp (removeItem CONFIG.FAVORITES_KEY)
         (fun _ w2 =>
            fault_count w2 = 0 /\
            forall k, localStorage w2 !! k
                      = if String.eqb k CONFIG.FAVORITES_KEY then kept_favorites f
                        else localStorage w1 !! k)
         (fun _ _ => False) w1).
    { intros Hf. calm_rule. intros w2 Hs2 Hc2. split; [lia|]. intros k.
      rewrite Hs2, Hf.
      destruct (String.eqb_spec k CONFIG.FAVORITES_KEY) as [->|].
      - apply lookup_delete_eq.
      - by rewrite lookup_delete_ne. }
    clearbody f. destruct f as [text|]; [|by apply wp_ret, Hkeep].
    destruct (truthy_item (Some text)) eqn:Htr.
    2: { apply wp_ret, Hkeep. unfold kept_favorites. by rewrite Htr. }
    apply wp_try_catch, wp_bind. unfold JSON_parse_m.
    destruct (JSON_parse text) as [parsed|] eqn:Hp.
    - apply wp_ret. destruct (isArray parsed) eqn:Harr.
      + apply wp_ret, Hkeep. unfold kept_favorites, parses_to_array.
        by rewrite Htr, Hp, Harr.
      + apply wp_throw, Hdrop. unfold kept_favorites, parses_to_array.
        by rewrite Htr, Hp, Harr.
    - apply wp_throw, Hdrop. unfold kept_favorites, parses_to_array.
      by rewrite Htr, Hp. }
  intros _ w2 [Hc2 Hs2].
  eapply wp_mono; [by apply obsolete_keys_loop | | done].
  intros _ w3 [Hc3 Hs3]. split; [done|]. intros k.
  rewrite Hs3, !Hs2, !Hs1. unfold after_v1_rules.
  destruct (String.eqb_spec k CONFIG.THEME_KEY) as [->|Ht]; [done|].
  destruct (String.eqb_spec k CONFIG.FAVORITES_KEY) as [->|Hf]; [done|].
  done.
Qed.

Lemma insert_version_pointwise (s s' : gmap string string) (k : string) :
  s' = <[CONFIG.VERSION_KEY := CONFIG.APP_VERSION]> s ->
  s' !! k = if String.eqb k CONFIG.VERSION_KEY then Some CONFIG.APP_VERSION
            else s !! k.
Proof.
  intros ->. destruct (String.eqb_spec k CONFIG.VERSION_KEY) as [->|].
  - apply lookup_insert_eq.
  - by rewrite lookup_insert_ne.
Qed.

(** The [try] block on a store that does not fail: it never throws, and
    leaves under each key what [migrated] says. *)
Lemma migrate_body_effect (w : world) :
  fault_count w = 0 ->
  wp migrate_body
     (fun _ w' =>
        fault_count w' = 0 /\
        forall k, localStorage w' !! k = migrated (localStorage w) k)
     (fun _ _ => False) w.
Proof.
  intros Hw. unfold migrate_body. apply wp_bind.
  calm_rule. intros w1 Hs1 Hc1. unfold migrated.
  destruct (localStorage w !! CONFIG.VERSION_KEY) as [v|] eqn:Hv.
  - destruct v as [|c v'].
    { simpl. calm_rule. intros w2 Hs2 Hc2. split; [lia|]. intros k.
      apply insert_version_pointwise. by rewrite Hs2, Hs1. }
    remember (String c v') as v eqn:Hdef.
    assert (Htruthy : truthy_item (Some v) = true) by by rewrite Hdef.
    assert (Hnonempty : String.eqb v "" = false) by by rewrite Hdef.
    rewrite Htruthy, Hnonempty. cbn [negb andb].
    destruct (String.eqb_spec v CONFIG.APP_VERSION) as [->|Hne].
    + apply wp_ret. split; [lia|]. intros k. rewrite Hs1.
      destruct (String.eqb_spec k CONFIG.VERSION_KEY) as [->|]; done.
    + apply wp_bind. calm_rule. intros w2 Hs2 Hc2.
      apply wp_bind. calm_rule. intros w3 Hs3 Hc3.
      rewrite Hs2, Hs1.
      apply wp_bind.
      apply wp_mono with
        (Q := fun _ w4 =>
           fault_count w4 = 0 /\
           forall k, localStorage w4 !! k
                     = if String.ltb v "2.0" then after_v1_rules (localStorage w) k
                       else localStorage w !! k)
        (E := fun _ _ => False); [| | done].
      { destruct (String.ltb v "2.0").
        - assert (Hs : localStorage w3 = localStorage w) by congruence.
          rewrite <- Hs. apply migrate_v1_effect. lia.
        - apply wp_ret. split; [lia|]. intros k. congruence. }
      intros _ w4 [Hc4 Hs4]. apply wp_bind.
      calm_rule. intros w5 Hs5 Hc5.
      apply wp_showToast. intros w6 Hs6 Hc6. split; [lia|]. intros k.
      rewrite (insert_version_pointwise (localStorage w4) _ k);
        [|by rewrite Hs6, Hs5].
      by rewrite Hs4.
  - calm_rule. intros w2 Hs2 Hc2. split; [lia|]. intros k.
    apply insert_version_pointwise. by rewrite Hs2, Hs1.
Qed.

(** The migration on a store that does not fail. *)
Lemma migration_effect (w : world) :
  fault_count w = 0 ->
  exists w',
    migrateLocalStorageData w = (Ret tt, w') /\
    fault_count w' = 0 /\
    forall k, localStorage w' !! k = migrated (localStorage w) k.
Proof.
  intros Hw.
  destruct (wp_returns migrateLocalStorageData
              (fun _ w' =>
                 fault_count w' = 0 /\
                 forall k, localStorage w' !! k = migrated (localStorage w) k) w)
    as ([] & w' & Hrun & Hw'); [|eauto].
  unfold migrateLocalStorageData. apply wp_try_catch.
  eapply wp_mono; [by apply migrate_body_effect | done | done].
Qed.

Lemma calm_tail (w : world) :
  fault_count w = 0 -> fault_count (set_faults (tail (faults w)) w) = 0.
Proof.
  unfold fault_count. destruct (faults w) as [|[] fs]; simpl; [done | done | lia].
Qed.

Lemma calm_getItem (key : string) (w : world) :
  fault_count w = 0 ->
  getItem key w = (Ret (localStorage w !! key), set_faults (tail (faults w)) w).
Proof.
  unfold fault_count, getItem, bind, storage_access.
  by destruct (faults w) as [|[] fs].
Qed.

(** On an up-to-date store that does not fail, the migration reads the
    version and does nothing else. *)
Lemma migrate_current (w : world) :
  localStorage w !! CONFIG.VERSION_KEY = Some CONFIG.APP_VERSION ->
  fault_count w = 0 ->
  migrateLocalStorageData w = (Ret tt, set_faults (tail (faults w)) w).
Proof.
  intros Hv Hw. unfold migrateLocalStorageData, try_catch, migrate_body.
  unfold bind at 1. rewrite (calm_getItem _ w Hw), Hv. reflexivity.
Qed.

(** X12.  The migration is idempotent on a store that does not fail: a
    second run after the first returns normally, leaves the store as the
    first run left it, and shows no further toast. *)
Theorem migration_idempotent (w : world) :
  fault_count w = 0 ->
  exists w1 w2,
    migrateLocalStorageData w = (Ret tt, w1) /\
    migrateLocalStorageData w1 = (Ret tt, w2) /\
    localStorage w2 = localStorage w1 /\
    toasts w2 = toasts w1.
Proof.
  intros Hw. destruct (migration_effect w Hw) as (w1 & Hrun & Hc1 & Hs1).
  exists w1, (set_faults (tail (faults w1)) w1). split; [done|].
  split; [|done]. apply migrate_current; [|done].
  rewrite Hs1. unfold migrated. by rewrite String.eqb_refl.
Qed.

Lemma migration_idempotent_witness :
  fault_count (start store_v1_mixed [false; false]) = 0 /\
  exists w1 w2,
    migrateLocalStorageData (start store_v1_mixed [false; false]) = (Ret tt, w1) /\
    migrateLocalStorageData w1 = (Ret tt, w2) /\
    localStorage w2 = localStorage w1 /\
    toasts w2 = toasts w1.
Proof.
  split; [reflexivity|].
  apply (migration_idempotent (start store_v1_mixed [false; false])).
  reflexivity.
Defined.

(** X13.  What the migration makes of a version-1 store.  When the stored
    version is a non-empty text below ["2.0"] and no storage access fails,
    the migration returns normally and afterwards: the version key holds
    the current version; the theme key holds what it held when that was
    one of the two literals, and nothing otherwise; the favorites key
    holds what it held when that was the empty text or parses to an array,
    and nothing otherwise; each of the five obsolete keys holds nothing,
    or the empty text when it held that; every other key holds what it
    held. *)
Theorem migration_cleans_version_1_store (w : world) (v : string) :
  localStorage w !! CONFIG.VERSION_KEY = Some v ->
  v <> "" ->
  String.ltb v "2.0" = true ->
  fault_count w = 0 ->
  exists w',
    migrateLocalStorageData w = (Ret tt, w') /\
    localStorage w' !! CONFIG.VERSION_KEY = Some CONFIG.APP_VERSION /\
    localStorage w' !! CONFIG.THEME_KEY
    = kept_theme (localStorage w !! CONFIG.THEME_KEY) /\
    localStorage w' !! CONFIG.FAVORITES_KEY
    = kept_favorites (localStorage w !! CONFIG.FAVORITES_KEY) /\
    (forall k, In k v1Keys ->
       localStorage w' !! k = kept_obsolete (localStorage w !! k)) /\
    (forall k,
       ~ In k (CONFIG.VERSION_KEY :: CONFIG.THEME_KEY :: CONFIG.FAVORITES_KEY
               :: v1Keys) ->
       localStorage w' !! k = localStorage w !! k).
Proof.
  intros Hv Hne Hlt Hw.
  destruct (migration_effect w Hw) as (w' & Hrun & _ & Hs).
  exists w'. split; [done|].
  assert (Hm : forall k, k <> CONFIG.VERSION_KEY ->
            localStorage w' !! k = after_v1_rules (localStorage w) k).
  { intros k Hk. rewrite Hs. unfold migrated. rewrite Hv, Hlt.
    apply String.eqb_neq in Hk, Hne. by rewrite Hk, Hne. }
  split; [rewrite Hs; unfold migrated; by rewrite String.eqb_refl|].
  split; [by rewrite Hm|]. split; [by rewrite Hm|]. split.
  - intros k Hk. simpl in Hk.
    destruct Hk as [<-|[<-|[<-|[<-|[<-|[]]]]]]; by rewrite Hm.
  - intros k Hk. rewrite Hm; [|intros ->; apply Hk; by left].
    unfold after_v1_rules.
    destruct (String.eqb_spec k CONFIG.THEME_KEY) as [->|_].
    { exfalso. apply Hk. right. by left. }
    destruct (String.eqb_spec k CONFIG.FAVORITES_KEY) as [->|_].
    { exfalso. apply Hk. right. right. by left. }
    destruct (str_in k v1Keys) eqn:Hin; [|done].
    exfalso. apply Hk. do 3 right. by apply str_in_In.
Qed.

Lemma migration_cleans_version_1_store_witness :
  localStorage (start store_v1_mixed []) !! CONFIG.VERSION_KEY = Some "1.4" /\
  "1.4" <> "" /\
  String.ltb "1.4" "2.0" = true /\
  fault_count (start store_v1_mixed []) = 0 /\
  exists w',
    migrateLocalStorageData (start store_v1_mixed []) = (Ret tt, w') /\
    localStorage w' !! CONFIG.VERSION_KEY = Some CONFIG.APP_VERSION /\
    localStorage w' !! CONFIG.THEME_KEY
    = kept_theme (localStorage (start store_v1_mixed []) !! CONFIG.THEME_KEY) /\
    localStorage w' !! CONFIG.FAVORITES_KEY
    = kept_favorites
        (localStorage (start store_v1_mixed []) !! CONFIG.FAVORITES_KEY) /\
    (forall k, In k v1Keys ->
       localStorage w' !! k
       = kept_obsolete (localStorage (start store_v1_mixed []) !! k)) /\
    (forall k,
       ~ In k (CONFIG.VERSION_KEY :: CONFIG.THEME_KEY :: CONFIG.FAVORITES_KEY
               :: v1Keys) ->
       localStorage w' !! k = localStorage (start store_v1_mixed []) !! k).
Proof.
  split; [reflexivity|]. split; [discriminate|]. split; [reflexivity|].
  split; [reflexivity|].
  apply (migration_cleans_version_1_store (start store_v1_mixed []) "1.4");
    [reflexivity | discriminate | reflexivity | reflexivity].
Defined.

(** The store of the witness ends with the version set, the theme, the
    favorites and the obsolete key gone, and the foreign key kept. *)
Example migration_of_mixed_store :
  let s := localStorage (snd (migrateLocalStorageData (start store_v1_mixed []))) in
  s = <[CONFIG.VERSION_KEY := "2.0"]> (<["other:key" := "y"]> ∅).
Proof. vm_compute. reflexivity. Qed.

(** * Start-up after a migration *)

Lemma initializeTheme_calm (DEFAULT_THEME : string) (w : world) :
  fault_count w = 0 ->
  exists w',
    initializeTheme DEFAULT_THEME w = (Ret tt, w') /\
    localStorage w' = localStorage w /\
    fault_count w' = 0 /\
    currentTheme w'
    = match localStorage w !! CONFIG.THEME_KEY with
      | Some s => if String.eqb s "" then configured_default DEFAULT_THEME w
                  else s
      | None => configured_default DEFAULT_THEME w
      end.
Proof.
  intros Hw. unfold initializeTheme, try_catch. unfold bind at 1.
  rewrite (calm_getItem _ w Hw). eexists. split; [reflexivity|].
  split; [done|]. split; [by apply calm_tail|].
  cbn. destruct (localStorage w !! CONFIG.THEME_KEY) as [s|]; [|done].
  cbn. by destruct (String.eqb s "").
Qed.

Lemma loadFavorites_calm (w : world) :
  fault_count w = 0 ->
  exists w',
    loadFavorites w = (Ret tt, w') /\
    currentTheme w' = currentTheme w /\
    favorites w'
    = match localStorage w !! CONFIG.FAVORITES_KEY with
      | Some text =>
          if String.eqb text "" then JArr []
          else match JSON_parse text with
               | Some parsed => parsed
               | None => JArr []
               end
      | None => JArr []
      end.
Proof.
  intros Hw. unfold loadFavorites, try_catch. unfold bind at 1.
  rewrite (calm_getItem _ w Hw).
  destruct (localStorage w !! CONFIG.FAVORITES_KEY) as [text|];
    [|eexists; split; [reflexivity | done]].
  cbn [truthy_item]. destruct (String.eqb text ""); cbn [negb];
    [eexists; split; [reflexivity | done]|].
  unfold bind, JSON_parse_m.
  destruct (JSON_parse text) as [parsed|];
    eexists; (split; [reflexivity | done]).
Qed.

(** X14.  A version-1 store starts up clean.  When the stored version is a
    non-empty text below ["2.0"], the configured default theme is one of
    [light], [dark] and [system], and no storage access fails, then after
    the migration [initializeTheme] puts one of the two theme literals in
    force and [loadFavorites] yields an array, whatever the theme and
    favorites keys held before. *)
Theorem version_1_store_starts_clean (DEFAULT_THEME : string) (w : world)
  (v : string) :
  localStorage w !! CONFIG.VERSION_KEY = Some v ->
  v <> "" ->
  String.ltb v "2.0" = true ->
  In DEFAULT_THEME ["light"; "dark"; "system"] ->
  fault_count w = 0 ->
  exists w1 w2 w3,
    migrateLocalStorageData w = (Ret tt, w1) /\
    initializeTheme DEFAULT_THEME w1 = (Ret tt, w2) /\
    loadFavorites w2 = (Ret tt, w3) /\
    theme_literal (currentTheme w3) /\
    exists elements, favorites w3 = JArr elements.
Proof.
  intros Hv Hne Hlt Hdefault Hw.
  destruct (migration_effect w Hw) as (w1 & Hrun1 & Hc1 & Hs1).
  destruct (initializeTheme_calm DEFAULT_THEME w1 Hc1)
    as (w2 & Hrun2 & Hs2 & Hc2 & Ht2).
  destruct (loadFavorites_calm w2 Hc2) as (w3 & Hrun3 & Ht3 & Hf3).
  exists w1, w2, w3. repeat (split; [done|]).
  assert (Hm : forall k, k <> CONFIG.VERSION_KEY ->
            localStorage w1 !! k = after_v1_rules (localStorage w) k).
  { intros k Hk. rewrite Hs1. unfold migrated. rewrite Hv, Hlt.
    apply String.eqb_neq in Hk, Hne. by rewrite Hk, Hne. }
  split.
  - rewrite Ht3, Ht2, Hm; [|done]. unfold after_v1_rules. cbn.
    assert (Hd : theme_literal (configured_default DEFAULT_THEME w1)).
    { unfold configured_default, theme_literal.
      destruct Hdefault as [<-|[<-|[<-|[]]]]; cbn; auto.
      destruct (prefersDark w1); auto. }
    unfold kept_theme.
    destruct (localStorage w !! CONFIG.THEME_KEY) as [s|]; [|done].
    unfold valid_theme, str_in. cbn.
    destruct (String.eqb_spec s "light") as [->|_]; [by left|].
    destruct (String.eqb_spec s "dark") as [->|_]; [by right|].
    by rewrite andb_false_r.
  - rewrite Hf3, Hs2, Hm; [|done]. unfold after_v1_rules. cbn.
    unfold kept_favorites, parses_to_array.
    destruct (localStorage w !! CONFIG.FAVORITES_KEY) as [text|]; [|by eexists].
    cbn [truthy_item].
    destruct (String.eqb text "") eqn:Hempty; cbn [negb andb].
    { rewrite Hempty. by eexists. }
    destruct (JSON_parse text) as [parsed|] eqn:Hp; [|by eexists].
    destruct parsed; cbn [isArray negb]; try by eexists.
    all: rewrite Hempty, Hp; by eexists.
Qed.

Lemma version_1_store_starts_clean_witness :
  localStorage (start store_v1_mixed []) !! CONFIG.VERSION_KEY = Some "1.4" /\
  "1.4" <> "" /\
  String.ltb "1.4" "2.0" = true /\
  In "system" ["light"; "dark"; "system"] /\
  fault_count (start store_v1_mixed []) = 0 /\
  exists w1 w2 w3,
    migrateLocalStorageData (start store_v1_mixed []) = (Ret tt, w1) /\
    initializeTheme "system" w1 = (Ret tt, w2) /\
    loadFavorites w2 = (Ret tt, w3) /\
    theme_literal (currentTheme w3) /\
    exists elements, favorites w3 = JArr elements.
Proof.
  assert (Hin : In "system" ["light"; "dark"; "system"])
    by (right; right; left; reflexivity).
  split; [reflexivity|]. split; [discriminate|]. split; [reflexivity|].
  split; [exact Hin|]. split; [reflexivity|].
  apply (version_1_store_starts_clean "system" (start store_v1_mixed []) "1.4");
    [reflexivity | discriminate | reflexivity | exact Hin | reflexivity].
Defined.

(** * Migration: the safe fallback *)

(** The sweep of the fallback, over any list of keys. *)
Lemma sweep_loop (keys : list string) (w : world) :
  fault_count w = 0 ->
  wp (forEach keys (fun key =>
        if startsWith "accounts:" key
           && negb (str_in key [CONFIG.THEME_KEY; CONFIG.FAVORITES_KEY])
        then removeItem key else ret tt))
     (fun _ w' =>
        fault_count w' = 0 /\
        forall k, localStorage w' !! k
                  = if str_in k keys && swept k then None
                    else localStorage w !! k)
     (fun _ _ => False) w.
Proof.
  revert w. induction keys as [|x keys IH]; intros w Hw; cbn [forEach].
  - by apply wp_ret.
  - apply wp_bind.
    change (startsWith "accounts:" x
            && negb (str_in x [CONFIG.THEME_KEY; CONFIG.FAVORITES_KEY]))
      with (swept x).
    change (str_in ?k (x :: keys)) with (String.eqb k x || str_in k keys).
    assert (Hstep : forall w1,
      fault_count w1 = 0 ->
      (forall k, localStorage w1 !! k
                 = if String.eqb k x && swept k then None
                   else localStorage w !! k) ->
      wp (forEach keys (fun key =>
            if startsWith "accounts:" key
               && negb (str_in key [CONFIG.THEME_KEY; CONFIG.FAVORITES_KEY])
            then removeItem key else ret tt))
         (fun _ w' =>
            fault_count w' = 0 /\
            forall k, localStorage w' !! k
                      = if (String.eqb k x || str_in k keys) && swept k
                        then None else localStorage w !! k)
         (fun _ _ => False) w1).
    { intros w1 Hc1 Hs1. eapply wp_mono; [by apply IH | | done].
      intros _ w' [Hc' Hs']. split; [done|]. intros k.
      rewrite Hs', Hs1.
      by destruct (String.eqb k x), (str_in k keys), (swept k). }
    destruct (swept x) eqn:Hx.
    + calm_rule. intros w1 Hs1 Hc1. apply Hstep; [lia|].
      intros k. rewrite Hs1.
      destruct (String.eqb_spec k x) as [->|Hne].
      * by rewrite Hx, lookup_delete_eq.
      * by rewrite lookup_delete_ne.
    + apply wp_ret. apply Hstep; [lia|].
      intros k. destruct (String.eqb_spec k x) as [->|Hne]; [|done].
      by rewrite Hx.
Qed.

Lemma absent_key (s : gmap string string) (k : string) :
  str_in k (map fst (map_to_list s)) = false -> s !! k = None.
Proof.
  intros Hk. destruct (s !! k) as [v|] eqn:Hv; [|done].
  assert (Hin : str_in k (map fst (map_to_list s)) = true); [|congruence].
  apply str_in_In, in_map_iff. exists (k, v). split; [done|].
  apply list_elem_of_In. by apply elem_of_map_to_list.
Qed.

(** The fallback on a store that does not fail. *)
Lemma migrate_fallback_effect (w : world) :
  fault_count w = 0 ->
  wp migrate_fallback
     (fun _ w' =>
        fault_count w' = 0 /\
        forall k, localStorage w' !! k = after_fallback (localStorage w) k)
     (fun _ _ => False) w.
Proof.
  intros Hw. unfold migrate_fallback.
  apply wp_bind. calm_rule. intros w1 Hs1 Hc1.
  apply wp_bind. calm_rule. intros w2 Hs2 Hc2.
  apply wp_bind. calm_rule. intros w3 Hs3 Hc3.
  rewrite Hs2, Hs1.
  set (unswept := fun (w' : world) =>
    fault_count w' = 0 /\
    forall k, localStorage w' !! k
              = if swept k then None else localStorage w !! k).
  apply wp_bind.
  apply wp_mono with (Q := fun _ => unswept) (E := fun _ _ => False);
    [| | done].
  { eapply wp_mono; [apply sweep_loop; lia | | done].
    intros _ w4 [Hc4 Hs4]. split; [done|]. intros k.
    rewrite Hs4, Hs3, Hs2, Hs1.
    destruct (str_in k _) eqn:Hk; [done|].
    rewrite (absent_key _ _ Hk). by destruct (swept k). }
  assert (Hrewrite : forall key text w4,
    swept key = false ->
    localStorage w !! key = Some text ->
    unswept w4 ->
    wp (setItem key text) (fun _ => unswept) (fun _ _ => False) w4).
  { intros key text w4 Hkey Hheld [Hc4 Hs4].
    calm_rule. intros w5 Hs5 Hc5. split; [lia|]. intros k. rewrite Hs5.
    destruct (String.eqb_spec k key) as [->|Hne].
    - by rewrite lookup_insert_eq, Hkey.
    - by rewrite lookup_insert_ne. }
  intros _ w4 Hw4. apply wp_bind.
  apply wp_mono with (Q := fun _ => unswept) (E := fun _ _ => False);
    [| | done].
  { destruct (localStorage w !! CONFIG.THEME_KEY) as [t|] eqn:Ht;
      [|by apply wp_ret].
    destruct (valid_theme (Some t)); [|by apply wp_ret].
    by apply Hrewrite. }
  intros _ w5 Hw5. apply wp_bind.
  apply wp_mono with (Q := fun _ => unswept) (E := fun _ _ => False);
    [| | done].
  { apply wp_try_catch.
    destruct (localStorage w !! CONFIG.FAVORITES_KEY) as [text|] eqn:Hf;
      [|by apply wp_ret].
    destruct (truthy_item (Some text)); [|by apply wp_ret].
    apply wp_bind. unfold JSON_parse_m.
    destruct (JSON_parse text) as [parsed|].
    - apply wp_ret. eapply wp_mono; [by apply Hrewrite | done | done].
    - apply wp_throw. by apply wp_ret. }
  intros _ w6 [Hc6 Hs6]. apply wp_bind.
  calm_rule. intros w7 Hs7 Hc7.
  apply wp_showToast. intros w8 Hs8 Hc8. split; [lia|]. intros k.
  rewrite (insert_version_pointwise (localStorage w6) _ k);
    [|by rewrite Hs8, Hs7].
  unfold after_fallback. by rewrite Hs6.
Qed.

(** X15.  A failed read of the version sweeps the store.  When the first
    storage access fails and the later ones succeed, the migration takes
    its safe fallback and returns normally; afterwards the version key
    holds the current version, the theme and favorites keys hold exactly
    what they held, valid or not, every other key that starts with
    [accounts:] is gone, and every key that does not start with
    [accounts:] holds what it held.  This whatever version the store had,
    the current one included. *)
Theorem failed_version_read_sweeps_store (w : world) (later : list bool) :
  faults w = true :: later ->
  count_faults later = 0 ->
  exists w',
    migrateLocalStorageData w = (Ret tt, w') /\
    localStorage w' !! CONFIG.VERSION_KEY = Some CONFIG.APP_VERSION /\
    localStorage w' !! CONFIG.THEME_KEY = localStorage w !! CONFIG.THEME_KEY /\
    localStorage w' !! CONFIG.FAVORITES_KEY
    = localStorage w !! CONFIG.FAVORITES_KEY /\
    (forall k,
       startsWith "accounts:" k = true ->
       ~ In k [CONFIG.VERSION_KEY; CONFIG.THEME_KEY; CONFIG.FAVORITES_KEY] ->
       localStorage w' !! k = None) /\
    (forall k,
       startsWith "accounts:" k = false ->
       localStorage w' !! k = localStorage w !! k).
Proof.
  intros Hfaults Hlater.
  destruct (wp_returns migrateLocalStorageData
              (fun _ w' =>
                 fault_count w' = 0 /\
                 forall k, localStorage w' !! k
                           = after_fallback (localStorage w) k) w)
    as ([] & w' & Hrun & _ & Hs).
  { unfold migrateLocalStorageData. apply wp_try_catch.
    unfold wp, migrate_body. unfold bind at 1.
    unfold getItem, bind, storage_access. rewrite Hfaults. cbn [head tail].
    change (wp migrate_fallback
              (fun _ w' =>
                 fault_count w' = 0 /\
                 forall k, localStorage w' !! k
                           = after_fallback (localStorage (set_faults later w)) k)
              (fun _ _ => False) (set_faults later w)).
    by apply migrate_fallback_effect. }
  exists w'. split; [done|].
  split; [rewrite Hs; unfold after_fallback; by rewrite String.eqb_refl|].
  split; [by rewrite Hs|]. split; [by rewrite Hs|]. split.
  - intros k Hk Hother. rewrite Hs. unfold after_fallback, swept.
    destruct (String.eqb_spec k CONFIG.VERSION_KEY) as [->|_].
    { exfalso. apply Hother. by left. }
    rewrite Hk. unfold str_in. cbn [existsb].
    destruct (String.eqb_spec k CONFIG.THEME_KEY) as [->|_].
    { exfalso. apply Hother. right. by left. }
    destruct (String.eqb_spec k CONFIG.FAVORITES_KEY) as [->|_]; [|done].
    exfalso. apply Hother. right. right. by left.
  - intros k Hk. rewrite Hs. unfold after_fallback, swept. rewrite Hk.
    destruct (String.eqb_spec k CONFIG.VERSION_KEY) as [->|_]; done.
Qed.

Lemma failed_version_read_sweeps_store_witness :
  faults (start store_current_extra [true]) = [true] /\
  count_faults [] = 0 /\
  exists w',
    migrateLocalStorageData (start store_current_extra [true]) = (Ret tt, w') /\
    localStorage w' !! CONFIG.VERSION_KEY = Some CONFIG.APP_VERSION /\
    localStorage w' !! CONFIG.THEME_KEY
    = localStorage (start store_current_extra [true]) !! CONFIG.THEME_KEY /\
    localStorage w' !! CONFIG.FAVORITES_KEY
    = localStorage (start store_current_extra [true]) !! CONFIG.FAVORITES_KEY /\
    (forall k,
       startsWith "accounts:" k = true ->
       ~ In k [CONFIG.VERSION_KEY; CONFIG.THEME_KEY; CONFIG.FAVORITES_KEY] ->
       localStorage w' !! k = None) /\
    (forall k,
       startsWith "accounts:" k = false ->
       localStorage w' !! k
       = localStorage (start store_current_extra [true]) !! k).
Proof.
  split; [reflexivity|]. split; [reflexivity|].
  apply (failed_version_read_sweeps_store (start store_current_extra [true]) []);
    reflexivity.
Defined.

(** On the store of the witness the key of the later feature is lost and
    the theme that is no literal stays. *)
Example sweep_of_current_store :
  let s := localStorage
             (snd (migrateLocalStorageData (start store_current_extra [true]))) in
  s !! "accounts:recent" = None /\ s !! CONFIG.THEME_KEY = Some "sepia".
Proof. split; reflexivity. Qed.

(** * Start-up: what is shown *)

Section Keeping.

Variable I : world -> Prop.
Hypothesis I_faults : forall fs w, I w -> I (set_faults fs w).
Hypothesis I_storage : forall s w, I w -> I (set_localStorage s w).

Lemma keeps_ret {A} (a : A) : keeps I (ret a).
Proof. by intros w Hw. Qed.

Lemma keeps_throw {A} (e : exn) : keeps I (throw (A := A) e).
Proof. by intros w Hw. Qed.

Lemma keeps_bind {A B} (c : M A) (k : A -> M B) :
  keeps I c -> (forall a, keeps I (k a)) -> keeps I (bind c k).
Proof.
  intros Hc Hk w Hw. specialize (Hc w Hw). unfold bind.
  destruct (c w) as [[a|e|] w']; [by apply Hk | done | done].
Qed.

Lemma keeps_try_catch {A} (body : M A) (handler : exn -> M A) :
  keeps I body -> (forall e, keeps I (handler e)) ->
  keeps I (try_catch body handler).
Proof.
  intros Hc Hk w Hw. specialize (Hc w Hw). unfold try_catch.
  destruct (body w) as [[a|e|] w']; [done | by apply Hk | done].
Qed.

Lemma keeps_forEach {A} (xs : list A) (f : A -> M unit) :
  (forall x, keeps I (f x)) -> keeps I (forEach xs f).
Proof.
  intros Hf. induction xs as [|x xs IH]; cbn [forEach].
  - apply keeps_ret.
  - by apply keeps_bind.
Qed.

Lemma keeps_storage_access : keeps I storage_access.
Proof.
  intros w Hw. unfold storage_access.
  destruct (head (faults w)) as [[]|]; by apply I_faults.
Qed.

Lemma keeps_getItem (key : string) : keeps I (getItem key).
Proof. apply keeps_bind; [apply keeps_storage_access|]. by intros _ w Hw. Qed.

Lemma keeps_setItem (key value : string) : keeps I (setItem key value).
Proof.
  apply keeps_bind; [apply keeps_storage_access|].
  intros _ w Hw. by apply I_storage.
Qed.

Lemma keeps_removeItem (key : string) : keeps I (removeItem key).
Proof.
  apply keeps_bind; [apply keeps_storage_access|].
  intros _ w Hw. by apply I_storage.
Qed.

Lemma keeps_storage_keys : keeps I storage_keys.
Proof. apply keeps_bind; [apply keeps_storage_access|]. by intros _ w Hw. Qed.

Lemma keeps_JSON_parse_m (text : string) : keeps I (JSON_parse_m text).
Proof.
  unfold JSON_parse_m.
  destruct (JSON_parse text); [apply keeps_ret | apply keeps_throw].
Qed.

Hypothesis I_uncached : forall w, I w -> toastContainer w = false.

Lemma keeps_showToast (message type : string) : keeps I (showToast message type).
Proof. intros w Hw. unfold showToast. by rewrite (I_uncached w Hw). Qed.

Lemma keeps_migrate_v1 (theme favs : option string) :
  keeps I (migrate_v1 theme favs).
Proof.
  unfold migrate_v1. apply keeps_bind.
  { destruct (valid_theme theme); [apply keeps_ret | apply keeps_removeItem]. }
  intros _. apply keeps_bind.
  { destruct favs as [text|]; [|apply keeps_ret].
    destruct (truthy_item (Some text)); [|apply keeps_ret].
    apply keeps_try_catch; [|intros _; apply keeps_removeItem].
    apply keeps_bind; [apply keeps_JSON_parse_m|].
    intros parsed. destruct (isArray parsed);
      [apply keeps_ret | apply keeps_throw]. }
  intros _. apply keeps_forEach. intros key.
  apply keeps_bind; [apply keeps_getItem|].
  intros item. destruct (truthy_item item);
    [apply keeps_removeItem | apply keeps_ret].
Qed.

Lemma keeps_migrate_body : keeps I migrate_body.
Proof.
  unfold migrate_body. apply keeps_bind; [apply keeps_getItem|].
  intros [v|]; [|apply keeps_setItem].
  destruct (negb (truthy_item (Some v))); [apply keeps_setItem|].
  destruct (String.eqb v CONFIG.APP_VERSION); [apply keeps_ret|].
  apply keeps_bind; [apply keeps_getItem|]. intros theme.
  apply keeps_bind; [apply keeps_getItem|]. intros favs.
  apply keeps_bind.
  { destruct (String.ltb v "2.0"); [apply keeps_migrate_v1 | apply keeps_ret]. }
  intros _. apply keeps_bind; [apply keeps_setItem|].
  intros _. apply keeps_showToast.
Qed.

Lemma keeps_migrate_fallback : keeps I migrate_fallback.
Proof.
  unfold migrate_fallback.
  apply keeps_bind; [apply keeps_getItem|]. intros theme.
  apply keeps_bind; [apply keeps_getItem|]. intros favs.
  apply keeps_bind; [apply keeps_storage_keys|]. intros keys.
  apply keeps_bind.
  { apply keeps_forEach. intros key.
    destruct (_ && _); [apply keeps_removeItem | apply keeps_ret]. }
  intros _. apply keeps_bind.
  { destruct theme as [t|]; [|apply keeps_ret].
    destruct (valid_theme (Some t)); [apply keeps_setItem | apply keeps_ret]. }
  intros _. apply keeps_bind.
  { apply keeps_try_catch; [|intros _; apply keeps_ret].
    destruct favs as [text|]; [|apply keeps_ret].
    destruct (truthy_item (Some text)); [|apply keeps_ret].
    apply keeps_bind; [apply keeps_JSON_parse_m|].
    intros _. apply keeps_setItem. }
  intros _. apply keeps_bind; [apply keeps_setItem|].
  intros _. apply keeps_showToast.
Qed.

Lemma keeps_migrateLocalStorageData : keeps I migrateLocalStorageData.
Proof.
  apply keeps_try_catch; [apply keeps_migrate_body|].
  intros _. apply keeps_migrate_fallback.
Qed.

End Keeping.

Lemma migration_unseen (w : world) :
  toastContainer w = false -> unseen w (snd (migrateLocalStorageData w)).
Proof.
  intros Hw. apply (keeps_migrateLocalStorageData (unseen w)); try done.
  by intros w' (? & _).
Qed.

Lemma initializeTheme_returns (DEFAULT_THEME : string) (w : world) :
  exists w',
    initializeTheme DEFAULT_THEME w = (Ret tt, w') /\ toasts w' = toasts w.
Proof.
  unfold initializeTheme, try_catch, bind, getItem, bind, storage_access.
  destruct (head (faults w)) as [[]|]; cbn;
    eexists; (split; [reflexivity | done]).
Qed.

(** X16.  The notice of the migration is never shown at start-up.  [init]
    runs the migration before [cacheDOMElements], when no toast container
    is known yet, so whatever the store holds and whichever storage
    accesses fail, the page shows no toast after the first three calls of
    [init]: neither that the app was updated, nor that the settings were
    cleaned, nor, when the migration throws, that the start failed. *)
Theorem startup_shows_no_migration_toast
  (page_has_toast_container : bool) (w : world) :
  toastContainer w = false ->
  toasts (snd (init page_has_toast_container (ret tt) w)) = toasts w.
Proof.
  intros Hw. destruct (migration_unseen w Hw) as (Hc & Ht & _).
  unfold init, try_catch. unfold bind at 1.
  destruct (migrateLocalStorageData w) as [[[]|e|] w1]; cbn in Hc, Ht.
  - unfold bind at 1. cbn [cacheDOMElements].
    unfold bind at 1.
    destruct (initializeTheme_returns CONFIG.DEFAULT_THEME
                (set_toastContainer page_has_toast_container w1))
      as (w2 & -> & Hi).
    cbn. by rewrite Hi.
  - unfold showToast. by rewrite Hc.
  - done.
Qed.

Lemma startup_shows_no_migration_toast_witness :
  toastContainer (start store_v1_mixed []) = false /\
  toasts (snd (init true (ret tt) (start store_v1_mixed [])))
  = toasts (start store_v1_mixed []).
Proof.
  split; [reflexivity|].
  apply (startup_shows_no_migration_toast true (start store_v1_mixed [])).
  reflexivity.
Defined.

(** X17.  A start that fails in the migration fails silently.  When
    [migrateLocalStorageData] throws, as it does when the store refuses
    its writes, [init] returns normally in the state the migration left:
    nothing that follows the migration runs, so no theme is put in force
    and no data is loaded, and the notice that the start failed is not
    shown, the toast container not being cached yet. *)
Theorem init_fails_silently (page_has_toast_container : bool) (rest : M unit)
  (w w' : world) (e : exn) :
  toastContainer w = false ->
  migrateLocalStorageData w = (Throw e, w') ->
  init page_has_toast_container rest w = (Ret tt, w') /\
  toasts w' = toasts w /\
  dataTheme w' = dataTheme w /\
  currentTheme w' = currentTheme w /\
  favorites w' = favorites w /\
  allAccounts w' = allAccounts w.
Proof.
  intros Hw Hrun. pose proof (migration_unseen w Hw) as Hkept.
  rewrite Hrun in Hkept. destruct Hkept as (Hc & Hrest).
  split; [|exact Hrest].
  unfold init, try_catch. unfold bind at 1. rewrite Hrun.
  unfold showToast. cbn in Hc. by rewrite Hc.
Qed.

Lemma init_fails_silently_witness :
  toastContainer world_read_only = false /\
  migrateLocalStorageData world_read_only
  = (Throw DOMException, snd (migrateLocalStorageData world_read_only)) /\
  init true loadFavorites world_read_only
  = (Ret tt, snd (migrateLocalStorageData world_read_only)) /\
  toasts (snd (migrateLocalStorageData world_read_only))
  = toasts world_read_only /\
  dataTheme (snd (migrateLocalStorageData world_read_only))
  = dataTheme world_read_only /\
  currentTheme (snd (migrateLocalStorageData world_read_only))
  = currentTheme world_read_only /\
  favorites (snd (migrateLocalStorageData world_read_only))
  = favorites world_read_only /\
  allAccounts (snd (migrateLocalStorageData world_read_only))
  = allAccounts world_read_only.
Proof.
  split; [reflexivity|]. split; [reflexivity|].
  apply (init_fails_silently true loadFavorites world_read_only
           (snd (migrateLocalStorageData world_read_only)) DOMException);
    reflexivity.
Defined.

(** * Loading: the data file *)

Lemma prop_readable (raw : jsval) (k : string) :
  readable raw = true -> exists v, prop raw k = Ret v.
Proof. destruct raw; try done; by eexists. Qed.

Lemma or_prop_readable (raw : jsval) (k : string) (rest : outcome jsval) :
  readable raw = true ->
  (exists v, rest = Ret v) ->
  exists v, or_prop raw k rest = Ret v.
Proof.
  intros Hraw (d & ->). unfold or_prop.
  destruct (prop_readable raw k Hraw) as (v & ->). cbn.
  destruct (truthy v); by eexists.
Qed.

Lemma normalizeAccount_readable (random : string) (raw : jsval) :
  readable raw = true -> exists a, normalizeAccount random raw = Ret a.
Proof.
  intros Hraw. unfold normalizeAccount.
  repeat match goal with
  | |- exists a, obind (or_prop ?r ?k ?rest) _ = Ret a =>
      let v := fresh "v" in let Hv := fresh "Hv" in
      destruct (or_prop_readable r k rest Hraw) as (v & Hv);
      [repeat (apply or_prop_readable; [exact Hraw|]); by eexists|];
      rewrite Hv; cbn [obind]
  end.
  by eexists.
Qed.

Lemma normalizeAccount_unreadable (random : string) (raw : jsval) :
  readable raw = false -> normalizeAccount random raw = Throw TypeError.
Proof. by destruct raw. Qed.

Lemma map_normalize_readable (random : nat -> string) (data : list jsval)
  (i : nat) :
  Forall (fun raw => readable raw = true) data ->
  exists accounts,
    map_normalize random i data = Ret accounts /\
    length accounts = length data /\
    forall n raw, data !! n = Some raw ->
      exists a, accounts !! n = Some a /\
                normalizeAccount (random (i + n)) raw = Ret a.
Proof.
  intros Hdata. revert i.
  induction Hdata as [|raw data Hraw _ IH]; intros i; cbn [map_normalize].
  - exists []. by repeat split.
  - destruct (normalizeAccount_readable (random i) raw Hraw) as (a & Ha).
    destruct (IH (S i)) as (accounts & Hrun & Hlen & Hnth).
    rewrite Ha, Hrun. cbn [obind]. exists (a :: accounts).
    split; [done|]. split; [cbn; by rewrite Hlen|].
    intros [|n] raw' Hn; cbn in Hn.
    + injection Hn as <-. exists a. by rewrite Nat.add_0_r.
    + destruct (Hnth n raw' Hn) as (a' & Ha' & Hnorm). exists a'.
      split; [done|]. by rewrite Nat.add_succ_r.
Qed.

Lemma map_normalize_unreadable (random : nat -> string) (data : list jsval)
  (i : nat) :
  Exists (fun raw => readable raw = false) data ->
  map_normalize random i data = Throw TypeError.
Proof.
  intros Hdata. revert i.
  induction Hdata as [raw data Hraw | raw data _ IH]; intros i;
    cbn [map_normalize].
  - by rewrite (normalizeAccount_unreadable _ _ Hraw).
  - destruct (readable raw) eqn:Hraw.
    + destruct (normalizeAccount_readable (random i) raw Hraw) as (a & ->).
      cbn [obind]. by rewrite IH.
    + by rewrite (normalizeAccount_unreadable _ _ Hraw).
Qed.

(** X18.  A data file that is an array without [null] loads whole and in
    order: [loadData] returns normally without a toast, [allAccounts] is
    what it returns, there are as many accounts as elements, and the
    account at each index is the normalisation of the element at that
    index.  Elements that are not objects are not refused: they are
    normalised like the empty record. *)
Theorem loadData_keeps_every_record (data : list jsval)
  (random : nat -> string) (w : world) :
  Forall (fun raw => readable raw = true) data ->
  exists accounts w',
    loadData (Response true (Some (JArr data))) random w = (Ret accounts, w') /\
    allAccounts w' = accounts /\
    toasts w' = toasts w /\
    length accounts = length data /\
    forall n raw, data !! n = Some raw ->
      exists a, accounts !! n = Some a /\
                normalizeAccount (random n) raw = Ret a.
Proof.
  intros Hdata.
  destruct (map_normalize_readable random data 0 Hdata)
    as (accounts & Hrun & Hlen & Hnth).
  exists accounts, (set_allAccounts accounts w).
  split; [|by repeat split].
  unfold loadData, try_catch. cbn [negb]. unfold bind, lift.
  by rewrite Hrun.
Qed.

Lemma loadData_keeps_every_record_witness :
  Forall (fun raw => readable raw = true) two_records /\
  exists accounts w',
    loadData (Response true (Some (JArr two_records))) (fun _ => "0.5")
      world_page_ready = (Ret accounts, w') /\
    allAccounts w' = accounts /\
    toasts w' = toasts world_page_ready /\
    length accounts = length two_records /\
    forall n raw, two_records !! n = Some raw ->
      exists a, accounts !! n = Some a /\
                normalizeAccount "0.5" raw = Ret a.
Proof.
  assert (Hdata : Forall (fun raw => readable raw = true) two_records)
    by (repeat constructor).
  split; [exact Hdata|].
  exact (loadData_keeps_every_record two_records (fun _ => "0.5")
           world_page_ready Hdata).
Defined.

(** X19.  One [null] in the data file discards the whole file: when the
    array holds a [null] anywhere, [loadData] does not skip it but falls
    back to the sample table, so none of the records of the file is
    loaded, and the warning toast is shown when the page has its toast
    container. *)
Theorem loadData_null_discards_file (data : list jsval)
  (random : nat -> string) (w : world) :
  In JNull data ->
  exists w',
    loadData (Response true (Some (JArr data))) random w
    = (Ret sample_accounts, w') /\
    allAccounts w' = sample_accounts /\
    (toastContainer w = true ->
     toasts w'
     = (toasts w
        ++ [("Failed to load accounts. Using sample data.", "warning")])%list).
Proof.
  intros Hnull.
  assert (Hthrow : map_normalize random 0 data = Throw TypeError).
  { apply map_normalize_unreadable, Exists_exists. exists JNull.
    split; [by apply list_elem_of_In | done]. }
  unfold loadData, try_catch. cbn [negb]. unfold bind at 1, lift at 1.
  rewrite Hthrow. unfold bind, showToast, lift, assign_allAccounts.
  rewrite sample_normalized.
  destruct (toastContainer w); eexists; (split; [reflexivity|]);
    split; done.
Qed.

Lemma loadData_null_discards_file_witness :
  In JNull records_with_null /\
  exists w',
    loadData (Response true (Some (JArr records_with_null))) (fun _ => "0.5")
      world_page_ready = (Ret sample_accounts, w') /\
    allAccounts w' = sample_accounts /\
    (toastContainer world_page_ready = true ->
     toasts w'
     = (toasts world_page_ready
        ++ [("Failed to load accounts. Using sample data.", "warning")])%list).
Proof.
  assert (Hnull : In JNull records_with_null) by (right; left; reflexivity).
  split; [exact Hnull|].
  exact (loadData_null_discards_file records_with_null (fun _ => "0.5")
           world_page_ready Hnull).
Defined.

(** * Normalisation: a second pass *)

(** What [normalizeAccount] returns: the fields with a truthy default
    are truthy, the others are truthy or their default. *)
Lemma normalizeAccount_shape (random : string) (raw : jsval) (a : Account.t) :
  random <> "" ->
  normalizeAccount random raw = Ret a ->
  truthy (Account.id a) = true /\
  truthy (Account.bank a) = true /\
  truthy (Account.title a) = true /\
  (truthy (Account.acc_no a) = true \/ Account.acc_no a = JStr "") /\
  (truthy (Account.iban a) = true \/ Account.iban a = JStr "") /\
  truthy (Account.currency a) = true /\
  truthy (Account.purpose a) = true /\
  (truthy (Account.note a) = true \/ Account.note a = JStr "") /\
  (truthy (Account.logo a) = true \/ Account.logo a = JNull).
Proof.
  intros Hrandom Hrun.
  assert (Hid : truthy (JStr random) = true).
  { cbn. by destruct random. }
  destruct raw as [| | | | | |elements|fs]; try done;
    try (injection Hrun as <-; cbn -[truthy]; rewrite Hid;
         repeat split; (done || by right)).
  unfold normalizeAccount in Hrun. rewrite !or_prop_ret in Hrun.
  cbn [obind] in Hrun. injection Hrun as <-.
  cbn [Account.id Account.bank Account.title Account.acc_no Account.iban
       Account.currency Account.purpose Account.note Account.logo].
  repeat split;
    repeat match goal with
           | |- context [if truthy (lookup_prop ?k fs) then _ else _] =>
               destruct (truthy (lookup_prop k fs)) eqn:?
           end; auto.
Qed.

(** X20.  Normalising is idempotent: the object [normalizeAccount] returns
    normalises to itself, whatever the raw record was, as every field it
    holds is then found under the key read first or second and the
    defaults are found again where a field was empty.  The random
    identifier is not drawn a second time. *)
Theorem normalizeAccount_idempotent (random random' : string) (raw : jsval)
  (a : Account.t) :
  random <> "" ->
  normalizeAccount random raw = Ret a ->
  normalizeAccount random' (as_object a) = Ret a.
Proof.
  intros Hrandom Hrun.
  destruct (normalizeAccount_shape random raw a Hrandom Hrun)
    as (Hid & Hbank & Htitle & Hacc & Hiban & Hcur & Hpur & Hnote & Hlogo).
  destruct a as [id bank title acc_no iban currency purpose note logo].
  cbn [Account.id Account.bank Account.title Account.acc_no Account.iban
       Account.currency Account.purpose Account.note Account.logo] in *.
  unfold normalizeAccount, as_object, or_prop.
  cbn [Account.id Account.bank Account.title Account.acc_no Account.iban
       Account.currency Account.purpose Account.note Account.logo
       prop lookup_prop obind String.eqb Ascii.eqb Bool.eqb truthy].
  rewrite Hid, Hbank, Htitle, Hcur, Hpur. cbn [obind].
  destruct Hacc as [-> | ->], Hiban as [-> | ->], Hnote as [-> | ->],
    Hlogo as [-> | ->]; reflexivity.
Qed.

Lemma normalizeAccount_idempotent_witness :
  "0.5" <> "" /\
  normalizeAccount "0.5" (JObj [("Bank", JStr "X"); ("ID", JStr "7")])
  = Ret (Account.Build (JStr "7") (JStr "X") (JStr "Account") (JStr "")
           (JStr "") (JStr "PKR") (JStr "General") (JStr "") JNull) /\
  normalizeAccount "0.9"
    (as_object
       (Account.Build (JStr "7") (JStr "X") (JStr "Account") (JStr "")
          (JStr "") (JStr "PKR") (JStr "General") (JStr "") JNull))
  = Ret (Account.Build (JStr "7") (JStr "X") (JStr "Account") (JStr "")
           (JStr "") (JStr "PKR") (JStr "General") (JStr "") JNull).
Proof.
  split; [discriminate|]. split; [reflexivity|].
  apply (normalizeAccount_idempotent "0.5" "0.9"
           (JObj [("Bank", JStr "X"); ("ID", JStr "7")]));
    [discriminate | reflexivity].
Defined.

(** * The search of the older script *)

Lemma append_nil (s : string) : s ++ "" = s.
Proof. induction s as [|c s IH]; [done|]. by rewrite append_cons, IH. Qed.

Lemma includes_inside (term s p q : string) :
  includes term (toLowerCase s) = true ->
  includes term (toLowerCase (p ++ s ++ q)) = true.
Proof.
  rewrite !includes_spec. intros (pre & post & Hs).
  exists (toLowerCase p ++ pre), (post ++ toLowerCase q).
  by rewrite !toLowerCase_app, Hs, !append_assoc.
Qed.

Lemma includes_joined (term : string) (texts : list string) :
  existsb (fun s => includes term (toLowerCase s)) texts = true ->
  exists joined,
    BackupFilter.join " " (map JStr texts) = Ret joined /\
    includes term (toLowerCase joined) = true.
Proof.
  induction texts as [|s texts IH]; [done|].
  cbn [existsb map BackupFilter.join BackupFilter.join_element obind].
  destruct texts as [|t texts].
  - cbn. rewrite orb_false_r. intros Hs. by exists s.
  - assert (Hrest : exists rest,
      BackupFilter.join " " (map JStr (t :: texts)) = Ret rest).
    { clear. generalize (t :: texts). intros l.
      induction l as [|x l (rest & IH)]; [by eexists|].
      cbn [map BackupFilter.join BackupFilter.join_element obind].
      destruct l; [by eexists|]. rewrite IH. by eexists. }
    destruct Hrest as (rest & Hrest).
    change (map JStr (t :: texts)) with (JStr t :: map JStr texts) in *.
    intros [Hs | Hlater]%orb_prop.
    + rewrite Hrest. cbn [obind]. eexists. split; [reflexivity|].
      rewrite <- (append_empty (s ++ _)). by apply includes_inside.
    + destruct (IH Hlater) as (joined & Hjoin & Hinc).
      rewrite Hjoin. cbn [obind]. eexists. split; [reflexivity|].
      rewrite <- (append_assoc s " " joined).
      rewrite <- (append_nil joined) at 1.
      by apply includes_inside.
Qed.

(** Both scripts normalise a raw record to the same eight fields. *)
Lemma Backup_normalizeAccount_same (random : string) (raw : jsval)
  (a : Account.t) :
  normalizeAccount random raw = Ret a ->
  Backup.normalizeAccount random raw
  = Ret (JObj [ ("id", Account.id a); ("bank", Account.bank a);
                ("title", Account.title a); ("acc_no", Account.acc_no a);
                ("iban", Account.iban a); ("currency", Account.currency a);
                ("purpose", Account.purpose a); ("note", Account.note a) ]).
Proof.
  intros Hrun.
  destruct raw as [| | | | | |elements|fs]; try done;
    try (injection Hrun as <-; reflexivity).
  unfold normalizeAccount in Hrun. unfold Backup.normalizeAccount.
  rewrite !or_prop_ret in *. cbn [obind] in *. by injection Hrun as <-.
Qed.

(** X21.  The search of [app.js] is narrower than the one it replaced.
    Take any raw record that normalises to string fields, any criteria and
    any favorites.  When the filter of [app.js] keeps the account, the
    filter of [app_backup.js] keeps the account its own [normalizeAccount]
    makes of the same record: the older script looks the search text up in
    the six fields joined by blanks, so it finds every match inside a
    field, and matches that run over two fields as well. *)
Theorem older_search_finds_more (random : string) (raw : jsval)
  (a : Account.t) (f : Filters.t) (favs : jsval) :
  normalizeAccount random raw = Ret a ->
  canonical a ->
  passes f favs a = Ret true ->
  exists account,
    Backup.normalizeAccount random raw = Ret account /\
    BackupFilter.passes f favs account = Ret true.
Proof.
  intros Hnorm Ha Hpass. eexists.
  split; [by apply Backup_normalizeAccount_same|]. clear Hnorm.
  unfold canonical in Ha.
  destruct a as [id bank title acc_no iban currency purpose note logo].
  simpl in Ha. repeat (apply andb_prop in Ha as [Ha ?]).
  destruct id as [| | | |id| | |]; try done.
  destruct bank as [| | | |bank| | |]; try done.
  destruct title as [| | | |title| | |]; try done.
  destruct acc_no as [| | | |acc_no| | |]; try done.
  destruct iban as [| | | |iban| | |]; try done.
  destruct currency as [| | | |currency| | |]; try done.
  destruct purpose as [| | | |purpose| | |]; try done.
  destruct note as [| | | |note| | |]; try done.
  revert Hpass. clear. unfold passes, BackupFilter.passes.
  cbn [Account.id Account.bank Account.title Account.acc_no Account.iban
       Account.currency Account.purpose Account.note].
  assert (Hprops :
    let account :=
      JObj [("id", JStr id); ("bank", JStr bank); ("title", JStr title);
            ("acc_no", JStr acc_no); ("iban", JStr iban);
            ("currency", JStr currency); ("purpose", JStr purpose);
            ("note", JStr note)] in
    prop account "id" = Ret (JStr id) /\
    prop account "bank" = Ret (JStr bank) /\
    prop account "title" = Ret (JStr title) /\
    prop account "acc_no" = Ret (JStr acc_no) /\
    prop account "iban" = Ret (JStr iban) /\
    prop account "currency" = Ret (JStr currency) /\
    prop account "purpose" = Ret (JStr purpose) /\
    prop account "note" = Ret (JStr note)) by (repeat split).
  cbv zeta in Hprops.
  destruct Hprops as (-> & -> & -> & -> & -> & -> & -> & ->).
  cbn [obind].
  change [JStr bank; JStr title; JStr acc_no; JStr iban; JStr purpose; JStr note]
    with (map JStr [bank; title; acc_no; iban; purpose; note]).
  destruct (String.eqb_spec (Filters.search f) "") as [_|Hne];
    cbn [negb obind]; [done|].
  rewrite some_field_texts by (intros H; by apply toLowerCase_empty in H).
  destruct (existsb _ _) eqn:Hfound; cbn [obind negb]; [|done].
  destruct (includes_joined _ _ Hfound) as (joined & Hjoin & Hinc).
  rewrite Hjoin. cbn [obind]. rewrite Hinc. cbn [obind negb]. done.
Qed.

Lemma older_search_finds_more_witness :
  normalizeAccount "0.5" bilal_record
  = Ret (Account.Build (JStr "2") (JStr "Allied Bank")
           (JStr "Bilal & Sons Electronics") (JStr "7890123456789012")
           (JStr "PK74ABPA0078901234567890") (JStr "PKR") (JStr "Business")
           (JStr "") (JStr "./assets/allied_bank.svg")) /\
  canonical
    (Account.Build (JStr "2") (JStr "Allied Bank")
       (JStr "Bilal & Sons Electronics") (JStr "7890123456789012")
       (JStr "PK74ABPA0078901234567890") (JStr "PKR") (JStr "Business")
       (JStr "") (JStr "./assets/allied_bank.svg")) /\
  passes (Filters.Build "BILAL" "PKR" "all" true) (JArr [JStr "2"])
    (Account.Build (JStr "2") (JStr "Allied Bank")
       (JStr "Bilal & Sons Electronics") (JStr "7890123456789012")
       (JStr "PK74ABPA0078901234567890") (JStr "PKR") (JStr "Business")
       (JStr "") (JStr "./assets/allied_bank.svg")) = Ret true /\
  exists account,
    Backup.normalizeAccount "0.5" bilal_record = Ret account /\
    BackupFilter.passes (Filters.Build "BILAL" "PKR" "all" true)
      (JArr [JStr "2"]) account = Ret true.
Proof.
  split; [reflexivity|]. split; [reflexivity|]. split; [reflexivity|].
  apply (older_search_finds_more "0.5" bilal_record
           (Account.Build (JStr "2") (JStr "Allied Bank")
              (JStr "Bilal & Sons Electronics") (JStr "7890123456789012")
              (JStr "PK74ABPA0078901234567890") (JStr "PKR") (JStr "Business")
              (JStr "") (JStr "./assets/allied_bank.svg")));
    reflexivity.
Defined.

(** The converse fails: a search text that runs from the end of the bank
    name into the title is found by the older script only. *)
Example search_across_fields :
  let f := Filters.Build "bank bilal" "all" "all" false in
  (exists account,
     Backup.normalizeAccount "0.5" bilal_record = Ret account /\
     BackupFilter.passes f (JArr []) account = Ret true) /\
  (exists a,
     normalizeAccount "0.5" bilal_record = Ret a /\
     passes f (JArr []) a = Ret false).
Proof. split; eexists; split; reflexivity. Qed.

(** * The purpose options *)

Lemma distinct_texts (values seen : list string) :
  exists out,
    distinct (map JStr seen) (map JStr values) = Ret (map JStr out) /\
    NoDup out /\
    sublist out values /\
    forall p, In p out <-> In p values /\ ~ In p seen.
Proof.
  revert seen. induction values as [|v values IH]; intros seen.
  - exists []. split; [done|]. split; [constructor|]. split; [done|].
    intros p. simpl. tauto.
  - cbn [map distinct]. destruct (indexOf_texts seen v) as (i & -> & Hi).
    cbn [obind]. destruct i as [n|].
    + assert (Hv : In v seen).
      { apply list_elem_of_In, list_elem_of_lookup. eauto. }
      destruct (IH seen) as (out & -> & Hnd & Hsub & Hin).
      exists out. split; [done|]. split; [done|].
      split; [by apply sublist_cons|].
      intros p. rewrite Hin. simpl. split; [tauto|].
      intros [[<- | ?] ?]; tauto.
    + destruct (IH (seen ++ [v])%list) as (out & Hrun & Hnd & Hsub & Hin).
      rewrite map_app in Hrun. cbn [map] in Hrun. rewrite Hrun. cbn [obind].
      exists (v :: out). split; [done|].
      split.
      { apply NoDup_cons. split; [|done].
        intros Hv%list_elem_of_In%Hin. rewrite in_app_iff in Hv.
        simpl in Hv. tauto. }
      split; [by apply sublist_skip|].
      intros p. simpl. rewrite Hin, in_app_iff. simpl.
      destruct (string_dec v p) as [<- | Hne]; tauto.
Qed.

Lemma truthy_purposes (accounts : list Account.t) :
  Forall canonical accounts ->
  exists texts,
    List.filter truthy (map Account.purpose accounts) = map JStr texts /\
    forall p, In p texts <->
              p <> "" /\ exists a, In a accounts /\ Account.purpose a = JStr p.
Proof.
  induction 1 as [|a accounts Ha _ (texts & IH & Hin)].
  - exists []. split; [done|]. intros p. simpl. split; [done|].
    by intros (_ & a & [] & _).
  - assert (Hp : exists p, Account.purpose a = JStr p).
    { unfold canonical in Ha. repeat (apply andb_prop in Ha as [Ha ?]).
      destruct (Account.purpose a); try done. by eexists. }
    destruct Hp as (p & Hp). cbn [map List.filter]. rewrite Hp, IH.
    cbn [truthy]. destruct (String.eqb_spec p "") as [-> | Hne]; cbn [negb].
    + exists texts. split; [done|]. intros q. rewrite Hin. split.
      * intros (Hq & b & Hb & Hpb). split; [done|]. exists b. simpl. tauto.
      * intros (Hq & b & [<- | Hb] & Hpb); [congruence|]. eauto.
    + exists (p :: texts). split; [done|]. intros q. simpl. rewrite Hin. split.
      * intros [<- | (Hq & b & Hb & Hpb)].
        -- split; [done|]. exists a. tauto.
        -- split; [done|]. exists b. tauto.
      * intros (Hq & b & [<- | Hb] & Hpb).
        -- left. congruence.
        -- right. eauto.
Qed.

Lemma sublist_filter {A} (keep : A -> bool) (l : list A) :
  sublist (List.filter keep l) l.
Proof.
  induction l as [|x l IH]; cbn; [done|].
  destruct (keep x); by constructor.
Qed.

(** X22.  The purpose select offers each purpose once.  On canonical
    accounts [populatePurposeOptions] offers texts without repetition, in
    the order of the accounts, and a text is offered exactly when it is
    not empty and is the purpose of some account. *)
Theorem purposes_offered_once (w : world) :
  Forall canonical (allAccounts w) ->
  exists texts,
    purposes w = Ret (map JStr texts) /\
    NoDup texts /\
    sublist (map JStr texts) (map Account.purpose (allAccounts w)) /\
    forall p, In p texts <->
              p <> "" /\
              exists a, In a (allAccounts w) /\ Account.purpose a = JStr p.
Proof.
  intros Hcan. unfold purposes.
  destruct (truthy_purposes _ Hcan) as (all & Hall & Hmem).
  destruct (distinct_texts all []) as (texts & Hrun & Hnd & Hsub & Hin).
  exists texts. rewrite Hall. split; [done|]. split; [done|]. split.
  - etrans; [|apply sublist_filter]. rewrite Hall.
    by apply (fmap_sublist JStr).
  - intros p. rewrite Hin, Hmem. simpl. tauto.
Qed.

Lemma purposes_offered_once_witness :
  Forall canonical (allAccounts world_all_shown) /\
  exists texts,
    purposes world_all_shown = Ret (map JStr texts) /\
    NoDup texts /\
    sublist (map JStr texts)
      (map Account.purpose (allAccounts world_all_shown)) /\
    forall p, In p texts <->
              p <> "" /\
              exists a, In a (allAccounts world_all_shown)
                        /\ Account.purpose a = JStr p.
Proof.
  assert (Hcan : Forall canonical (allAccounts world_all_shown))
    by (repeat constructor).
  split; [exact Hcan|].
  exact (purposes_offered_once world_all_shown Hcan).
Defined.

(** The sample table offers its two purposes, the repeated one once. *)
Example sample_purposes :
  purposes world_all_shown = Ret [JStr "Business"; JStr "Mobile Wallet"].
Proof. reflexivity. Qed.

(** X23.  Every purpose the select offers shows something.  On canonical
    accounts, with no search text, all currencies and favorites-only off,
    choosing an offered purpose returns normally with a list that is not
    empty; and unless the purpose chosen is the text [all], which the
    filter reads as no choice, the list holds exactly the accounts of that
    purpose. *)
Theorem offered_purpose_shows_accounts (w : world) (options : list jsval)
  (p : string) :
  Forall canonical (allAccounts w) ->
  purposes w = Ret options ->
  In (JStr p) options ->
  Filters.search (currentFilters w) = "" ->
  Filters.currency (currentFilters w) = "all" ->
  Filters.favoritesOnly (currentFilters w) = false ->
  exists w',
    purpose_change p w = (Ret tt, w') /\
    filteredAccounts w' <> [] /\
    (p <> "all" ->
     forall a, In a (filteredAccounts w')
               <-> In a (allAccounts w) /\ Account.purpose a = JStr p).
Proof.
  intros Hcan Hoptions Hp Hsearch Hcurrency Hfav.
  unfold purposes in Hoptions.
  destruct (truthy_purposes _ Hcan) as (all & Hall & Hmember).
  destruct (distinct_texts all []) as (texts & Hrun & _ & _ & Hin).
  change (map JStr []) with (@nil jsval) in Hrun.
  rewrite Hall, Hrun in Hoptions. injection Hoptions as <-.
  apply in_map_iff in Hp as (p' & [= ->] & Hp).
  apply Hin in Hp as [Hp _].
  apply Hmember in Hp as (_ & a0 & Ha0 & Hpurpose).
  set (f := Filters.Build "" "all" p false).
  destruct (filter_accounts_canonical f [] _ Hcan) as (kept & Hkept & _ & Hmem).
  assert (Hvisible : forall a,
    Visible f [] a <-> p = "all" \/ Account.purpose a = JStr p).
  { intros a. unfold Visible, f. cbn. split; [tauto|].
    intros H. repeat split; auto. done. }
  exists (set_filteredAccounts kept (set_currentFilters f w)).
  split; [|split].
  - unfold purpose_change. rewrite Hsearch, Hcurrency, Hfav.
    apply applyFilters_run. cbn.
    by rewrite (filter_accounts_ignores_favorites f _ (JArr (map JStr []))).
  - cbn. intros Hempty.
    assert (Hin0 : In a0 kept) by (apply Hmem, conj, Hvisible; auto).
    by rewrite Hempty in Hin0.
  - intros Hchosen a. cbn. rewrite Hmem, Hvisible. tauto.
Qed.

Lemma offered_purpose_shows_accounts_witness :
  Forall canonical (allAccounts world_all_shown) /\
  purposes world_all_shown = Ret [JStr "Business"; JStr "Mobile Wallet"] /\
  In (JStr "Mobile Wallet") [JStr "Business"; JStr "Mobile Wallet"] /\
  Filters.search (currentFilters world_all_shown) = "" /\
  Filters.currency (currentFilters world_all_shown) = "all" /\
  Filters.favoritesOnly (currentFilters world_all_shown) = false /\
  exists w',
    purpose_change "Mobile Wallet" world_all_shown = (Ret tt, w') /\
    filteredAccounts w' <> [] /\
    ("Mobile Wallet" <> "all" ->
     forall a, In a (filteredAccounts w')
               <-> In a (allAccounts world_all_shown)
                   /\ Account.purpose a = JStr "Mobile Wallet").
Proof.
  assert (Hcan : Forall canonical (allAccounts world_all_shown))
    by (repeat constructor).
  assert (Hin : In (JStr "Mobile Wallet") [JStr "Business"; JStr "Mobile Wallet"])
    by (right; left; reflexivity).
  split; [exact Hcan|]. split; [reflexivity|]. split; [exact Hin|].
  split; [reflexivity|]. split; [reflexivity|]. split; [reflexivity|].
  exact (offered_purpose_shows_accounts world_all_shown
           [JStr "Business"; JStr "Mobile Wallet"] "Mobile Wallet"
           Hcan eq_refl Hin eq_refl eq_refl eq_refl).
Defined.

(** * Initials *)

Lemma concat_cons (x : string) (xs : list string) :
  String.concat "" (x :: xs) = x ++ String.concat "" xs.
Proof.
  destruct xs as [|y ys]; cbn [String.concat].
  - by rewrite append_nil.
  - by rewrite append_empty.
Qed.

Lemma split_blank_letters (s : string) :
  String.concat "" (map charAt0 (split_blank s)) = first_letters true s /\
  String.concat "" (map charAt0 (tail (split_blank s))) = first_letters false s /\
  split_blank s <> [].
Proof.
  induction s as [|c s (IH1 & IH2 & IH3)]; [done|].
  cbn [split_blank first_letters]. destruct (Ascii.eqb c " ").
  - cbn [map tail]. rewrite concat_cons. cbn [charAt0].
    by rewrite append_empty.
  - destruct (split_blank s) as [|word words]; [done|].
    cbn [map tail] in *. rewrite concat_cons. cbn [charAt0].
    by rewrite append_cons, append_empty, IH2.
Qed.

Lemma first_letters_no_blank (at_start : bool) (s : string) :
  Forall (fun c => c <> " "%char) (list_ascii_of_string (first_letters at_start s)).
Proof.
  revert at_start. induction s as [|c s IH]; intros at_start; [constructor|].
  cbn [first_letters]. destruct (Ascii.eqb_spec c " ") as [->|Hne]; [done|].
  destruct at_start; [|done]. cbn. by constructor.
Qed.

Lemma first_letters_empty (s : string) :
  first_letters true s = "" <-> only_blanks s.
Proof.
  unfold only_blanks. induction s as [|c s IH]; [by split; [constructor|]|].
  cbn [first_letters list_ascii_of_string].
  destruct (Ascii.eqb_spec c " ") as [->|Hne].
  - rewrite IH. split; [by constructor|]. by intros [_ ?]%Forall_cons.
  - split; [done|]. by intros [? _]%Forall_cons.
Qed.

Lemma upper_unit_no_blank (c : ascii) :
  c <> " "%char -> ~ In blank (upper_unit c).
Proof.
  intros Hc Hin.
  destruct c as [[] [] [] [] [] [] [] []]; try (by destruct Hc);
    vm_compute in Hin; intuition discriminate.
Qed.

Lemma upper_unit_some (c : ascii) : upper_unit c <> [].
Proof.
  unfold upper_unit.
  repeat match goal with |- context [if ?b then _ else _] => destruct b end;
    done.
Qed.

(** X24.  The initials of a bank name are at most three code units, none
    of them a blank, and there are none exactly when the name has no
    character other than blanks: in that case the logo placeholder is
    empty. *)
Theorem getBankInitials_shape (bankName : string) :
  length (getBankInitials bankName) <= 3 /\
  ~ In blank (getBankInitials bankName) /\
  (getBankInitials bankName = [] <-> only_blanks bankName).
Proof.
  unfold getBankInitials.
  change (Some 3%Z) with (Some (Z.of_nat 3)). rewrite slice_first.
  destruct (split_blank_letters bankName) as (-> & _ & _).
  pose proof (first_letters_no_blank true bankName) as Hletters.
  rewrite <- first_letters_empty.
  destruct (first_letters true bankName) as [|c letters].
  { cbn. split; [lia|]. split; [tauto | done]. }
  cbn [list_ascii_of_string flat_map] in *.
  apply Forall_cons in Hletters as [Hc Hletters].
  split; [rewrite length_take; lia|]. split.
  - intros Hin%list_elem_of_In.
    pose proof (elem_of_sublist _ _ _ Hin (sublist_take _ _)) as Hall.
    apply list_elem_of_In, in_app_iff in Hall as [Hin' | Hin'].
    + by apply (upper_unit_no_blank c).
    + apply in_flat_map in Hin' as (c' & Hc' & Hin').
      apply (upper_unit_no_blank c'); [|done].
      rewrite Forall_forall in Hletters. by apply Hletters, list_elem_of_In.
  - split; [|done]. pose proof (upper_unit_some c) as Hsome.
    destruct (upper_unit c); done.
Qed.

(** Two words, the second after two blanks, and a sharp s at the head of a
    word. *)
Example initials_examples :
  getBankInitials "allied  bank" = units_of "AB" /\
  getBankInitials "Habib Bank Limited Pakistan" = units_of "HBL" /\
  getBankInitials (String (ascii_of_N 223) "x y") = units_of "SSY" /\
  getBankInitials "  " = [].
Proof. repeat split; reflexivity. Qed.
